(** * BaseClient of @arcblock/sdk-util: a shallow embedding

    The development follows [src/packages/sdk-util/src/index.js].  The
    class [BaseClient] is embedded by explicit state passing: every
    method takes the mutable part of [this] as a [state] and returns the
    new one; a synchronous [throw] and a rejected promise are values of
    an error type; the replies of the network (axios, the Phoenix socket)
    are arguments of the step that consumes them. *)

From Stdlib Require Import ZArith String List Lia.
From stdpp Require Import base option list strings gmap pretty.
Import ListNotations.

Local Open Scope string_scope.
Set Warnings "-register-all".

(** ** JavaScript values *)

Module JS.

(** The values the client handles: decoded JSON and references to event
    emitters.  Numbers are the integers the code meets (HTTP status). *)
Inductive value :=
| VUndefined
| VNull
| VBool (b : bool)
| VNum (z : Z)
| VStr (s : string)
| VRef (r : nat)
| VObject (props : list (string * value)).

(** What can be thrown, or reject a promise. *)
Inductive exn :=
| Error (message : string)
| TypeError (message : string)
| SchemaInconsistency (type_name : string)
| MissingArgument (arg_name : string)
| Thrown (v : value).

Inductive result (A : Type) :=
| Ok (a : A)
| Err (e : exn).
Arguments Ok {A} a.
Arguments Err {A} e.

Definition bind {A B} (r : result A) (k : A -> result B) : result B :=
  match r with
  | Ok a => k a
  | Err e => Err e
  end.

Notation "'let^' x := r 'in' k" := (bind r (fun x => k))
  (at level 10, x name, r at level 100, k at level 200).

(** An object used as a map: its own properties in creation order, which
    is the order of [Object.keys] for keys that are not array indices. *)
Fixpoint obj_get {A} (k : string) (o : list (string * A)) : option A :=
  match o with
  | [] => None
  | (k', v) :: o' => if String.eqb k k' then Some v else obj_get k o'
  end.

(** [o[k] = v]: an existing key keeps its place, a new one goes last. *)
Fixpoint obj_set {A} (k : string) (v : A) (o : list (string * A))
  : list (string * A) :=
  match o with
  | [] => [(k, v)]
  | (k', v') :: o' =>
      if String.eqb k k' then (k, v) :: o' else (k', v') :: obj_set k v o'
  end.

(** [Object.keys(o)]. *)
Definition obj_keys {A} (o : list (string * A)) : list string := map fst o.

(** The object without the key [k]. *)
Definition obj_delete {A} (k : string) (o : list (string * A)) : list (string * A) :=
  List.filter (fun p => negb (String.eqb k (fst p))) o.

(** [v.k] for the data properties the client reads ([data], [errors],
    [subscriptionId], [result]): a [TypeError] on [undefined] and [null],
    [undefined] on a primitive or when the property is absent. *)
Definition get_prop (v : value) (k : string) : result value :=
  match v with
  | VUndefined => Err (TypeError ("Cannot read property " ++ k ++ " of undefined"))
  | VNull => Err (TypeError ("Cannot read property " ++ k ++ " of null"))
  | VObject props => Ok (default VUndefined (obj_get k props))
  | _ => Ok VUndefined
  end.

(** [a === b].  Two decoded objects are never the same object. *)
Definition strict_eq (a b : value) : bool :=
  match a, b with
  | VUndefined, VUndefined => true
  | VNull, VNull => true
  | VBool x, VBool y => Bool.eqb x y
  | VNum x, VNum y => Z.eqb x y
  | VStr x, VStr y => String.eqb x y
  | VRef x, VRef y => Nat.eqb x y
  | _, _ => false
  end.

(** How a promise ends. *)
Inductive outcome :=
| Resolved (v : value)
| Rejected (e : exn).

Definition is_nullish (v : value) : bool :=
  match v with
  | VUndefined | VNull => true
  | _ => false
  end.

End JS.

(** ** The query builder engine

    [index.js] imports [getQueryBuilders], [getMutationBuilders] and
    [getSubscriptionBuilders] from [./util]; that file is not part of the
    sources at hand.  The engine below is therefore written after the
    design document (sections 3, 4.1 and 7). *)

Module Engine.
Import JS.

(** Modelled from the spec: the kinds of a Type and of an operation
    ([./util] is missing). *)
Inductive type_kind := KObject | KScalar | KEnum | KList | KNonNull | KInput.

Inductive operation_kind := Query | Mutation | Subscription.

(** Modelled from the spec: a Type reference, the name of a type of the
    graph under its list and non-null wrappers ([./util] is missing). *)
Inductive type_ref :=
| TNamed (name : string)
| TList (inner : type_ref)
| TNonNull (inner : type_ref).

Fixpoint named (t : type_ref) : string :=
  match t with
  | TNamed n => n
  | TList t' => named t'
  | TNonNull t' => named t'
  end.

(** Modelled from the spec: Argument (name, Type reference, optional
    default), Field (name, return Type reference, ordered arguments) and
    Type (kind, fields) of the TypeGraph ([./util] is missing). *)
Record Argument := {
  arg_name : string;
  arg_type : type_ref;
  arg_default : option value }.

Record Field := {
  field_name : string;
  field_type : type_ref;
  field_args : list Argument }.

Record Type_ := {
  kind : type_kind;
  fields : list Field }.

Abbreviation TypeGraph := (gmap string Type_).

(** A rendered selection: the field, the name of its return type, and
    the selection set below it (empty for a leaf). *)
Inductive selection :=
| Sel (field : string) (type : string) (sub : list selection).

Definition sel_field (s : selection) : string := let 'Sel f _ _ := s in f.
Definition sel_type (s : selection) : string := let 'Sel _ t _ := s in t.
Definition sel_sub (s : selection) : list selection := let 'Sel _ _ l := s in l.

(** Modelled from the spec: the fields of an object type [tname] that go
    into its selection set ([./util] is missing).  The predicate is asked
    at every field; a field whose return type is [tname] or a type of
    [path], the types entered above it, is omitted; [enter] renders the
    selection set of the other return types. *)
Fixpoint select_fields (enter : string -> option (result (list selection)))
    (excl : string -> string -> bool) (path : list string) (tname : string)
    (fs : list Field) : option (result (list selection)) :=
  match fs with
  | [] => Some (Ok [])
  | f :: fs' =>
      let rt := named (field_type f) in
      if excl tname (field_name f) then select_fields enter excl path tname fs'
      else if decide (rt ∈ tname :: path) then select_fields enter excl path tname fs'
      else
        match enter rt with
        | None => None
        | Some (Err e) => Some (Err e)
        | Some (Ok sub) =>
            match select_fields enter excl path tname fs' with
            | Some (Ok rest) => Some (Ok (Sel (field_name f) rt sub :: rest))
            | other => other
            end
        end
  end.

(** Modelled from the spec: selection-set rendering of section 4.1
    ([./util] is missing).  A type that the graph does not hold is a
    [SchemaInconsistency]; a scalar or an enum has no sub-selection; an
    object is entered and its fields selected.  [fuel] bounds the depth;
    [None] means that it ran out. *)
Fixpoint select_type (fuel : nat) (g : TypeGraph) (excl : string -> string -> bool)
    (path : list string) (tname : string) : option (result (list selection)) :=
  match fuel with
  | O => None
  | S fuel' =>
      match g !! tname with
      | None => Some (Err (SchemaInconsistency tname))
      | Some t =>
          match kind t with
          | KObject =>
              select_fields (select_type fuel' g excl (tname :: path))
                            excl path tname (fields t)
          | _ => Some (Ok [])
          end
      end
  end.

(** No field of a selection returns a type that was entered above it. *)
Fixpoint no_reentry (path : list string) (s : selection) : bool :=
  match s with
  | Sel _ t sub =>
      (if decide (t ∈ path) then false else true)
      && forallb (no_reentry (t :: path)) sub
  end.

(** Modelled from the spec: the OperationDescriptor of section 3
    ([./util] is missing); [return_type] and [selection_set] are what
    [build] renders. *)
Record OperationDescriptor := {
  name : string;
  op_kind : operation_kind;
  op_args : list Argument;
  return_type : string;
  selection_set : list selection }.

Definition argsShape (d : OperationDescriptor) : list (string * type_ref) :=
  map (fun a => (arg_name a, arg_type a)) (op_args d).

(** Modelled from the spec: one descriptor per field of the root type,
    the walk starting with the root on the path ([./util] is missing). *)
Fixpoint build_fields (fuel : nat) (g : TypeGraph) (excl : string -> string -> bool)
    (k : operation_kind) (root : string) (fs : list Field)
  : option (result (list (string * OperationDescriptor))) :=
  match fs with
  | [] => Some (Ok [])
  | f :: fs' =>
      let rt := named (field_type f) in
      let sel := if decide (rt ∈ [root]) then Some (Ok [])
                 else select_type fuel g excl [root] rt in
      match sel with
      | None => None
      | Some (Err e) => Some (Err e)
      | Some (Ok sub) =>
          match build_fields fuel g excl k root fs' with
          | Some (Ok rest) =>
              Some (Ok (obj_set (field_name f)
                          {| name := field_name f; op_kind := k;
                             op_args := field_args f; return_type := rt;
                             selection_set := sub |} rest))
          | other => other
          end
      end
  end.

(** Modelled from the spec: a root type that the graph does not hold is
    a [SchemaInconsistency] ([./util] is missing). *)
Definition buildOperations_fuel (fuel : nat) (g : TypeGraph) (root : string)
    (excl : string -> string -> bool) (k : operation_kind)
  : option (result (list (string * OperationDescriptor))) :=
  match g !! root with
  | None => Some (Err (SchemaInconsistency root))
  | Some t => build_fields fuel g excl k root (fields t)
  end.

(** Modelled from the spec: [buildOperations(typeGraph, rootTypeName,
    exclusionPredicate)] of section 4.1, the code behind
    [getQueryBuilders], [getMutationBuilders] and
    [getSubscriptionBuilders] ([./util] is missing).  The depth budget is
    one more than the number of types; [buildOperations_fuel_enough]
    shows that it never runs out. *)
Definition buildOperations (g : TypeGraph) (root : string)
    (excl : string -> string -> bool) (k : operation_kind)
  : result (list (string * OperationDescriptor)) :=
  match buildOperations_fuel (S (size g)) g root excl k with
  | Some r => r
  | None => Err (Error "buildOperations: depth budget exhausted")
  end.

(** Modelled from the spec: an argument is required when its type is
    non-null and it declares no default ([./util] is missing). *)
Definition required (a : Argument) : bool :=
  match arg_type a, arg_default a with
  | TNonNull _, None => true
  | _, _ => false
  end.

(** Modelled from the spec: every required argument must be present
    ([./util] is missing). *)
Fixpoint check_args (decl : list Argument) (args : list (string * value))
  : result unit :=
  match decl with
  | [] => Ok tt
  | a :: decl' =>
      match required a, obj_get (arg_name a) args with
      | true, None => Err (MissingArgument (arg_name a))
      | _, _ => check_args decl' args
      end
  end.

Definition quote : string := String (Ascii.ascii_of_nat 34) EmptyString.

(** Modelled from the spec: the text of an operation, the arguments in
    the order of their declaration; the exact format belongs to the
    query language ([./util] is missing). *)
Fixpoint render_value (v : value) : string :=
  match v with
  | VUndefined | VNull | VRef _ => "null"
  | VBool true => "true"
  | VBool false => "false"
  | VNum z => pretty z
  | VStr s => quote ++ s ++ quote
  | VObject props =>
      "{" ++ (fix go (l : list (string * value)) : string :=
                match l with
                | [] => EmptyString
                | (k, w) :: l' => k ++ ": " ++ render_value w ++ " " ++ go l'
                end) props ++ "}"
  end.

Fixpoint render_args (decl : list Argument) (args : list (string * value)) : string :=
  match decl with
  | [] => EmptyString
  | a :: decl' =>
      match obj_get (arg_name a) args with
      | Some v => arg_name a ++ ": " ++ render_value v ++ " " ++ render_args decl' args
      | None => render_args decl' args
      end
  end.

Fixpoint render_selection (s : selection) : string :=
  match s with
  | Sel f _ [] => f
  | Sel f _ sub =>
      f ++ "{" ++ (fix go (l : list selection) : string :=
                     match l with
                     | [] => EmptyString
                     | x :: l' => render_selection x ++ " " ++ go l'
                     end) sub ++ "}"
  end.

Definition render_kind (k : operation_kind) : string :=
  match k with
  | Query => EmptyString
  | Mutation => "mutation"
  | Subscription => "subscription"
  end.

(** Modelled from the spec: the builder of an operation, a pure function
    of the descriptor and the call-time arguments; a missing required
    argument is a [MissingArgument] ([./util] is missing). *)
Definition build (d : OperationDescriptor) (args : list (string * value))
  : result string :=
  match check_args (op_args d) args with
  | Err e => Err e
  | Ok _ =>
      Ok (render_kind (op_kind d) ++ "{" ++
          render_selection
            (Sel (name d ++ "(" ++ render_args (op_args d) args ++ ")")
                 (return_type d) (selection_set d)) ++ "}")
  end.

(** Every type reference held by a type of the graph resolves. *)
Definition closed (g : TypeGraph) : Prop :=
  forall t T f, g !! t = Some T -> In f (fields T) ->
                is_Some (g !! named (field_type f)).

(** The same, as a check that runs. *)
Definition resolves (g : TypeGraph) (T : Type_) : bool :=
  forallb (fun f => bool_decide (is_Some (g !! named (field_type f)))) (fields T).

Definition closedb (g : TypeGraph) : bool :=
  bool_decide (map_Forall (fun _ T => resolves g T = true) g).



(** A schema with a self-referential object type. *)
Definition user_graph : TypeGraph :=
  <["RootQueryType" :=
      {| kind := KObject;
         fields := [ {| field_name := "getUser";
                        field_type := TNamed "User";
                        field_args := [ {| arg_name := "id";
                                           arg_type := TNonNull (TNamed "ID");
                                           arg_default := None |} ] |} ] |}]>
  (<["User" :=
      {| kind := KObject;
         fields := [ {| field_name := "id"; field_type := TNonNull (TNamed "ID");
                        field_args := [] |};
                     {| field_name := "password"; field_type := TNamed "String";
                        field_args := [] |};
                     {| field_name := "name"; field_type := TNamed "String";
                        field_args := [] |};
                     {| field_name := "friends"; field_type := TList (TNamed "User");
                        field_args := [] |};
                     {| field_name := "posts"; field_type := TList (TNamed "Post");
                        field_args := [] |} ] |}]>
  (<["Post" :=
      {| kind := KObject;
         fields := [ {| field_name := "title"; field_type := TNamed "String";
                        field_args := [] |};
                     {| field_name := "author"; field_type := TNamed "User";
                        field_args := [] |} ] |}]>
  (<["ID" := {| kind := KScalar; fields := [] |}]>
  (<["String" := {| kind := KScalar; fields := [] |}]> ∅)))).

(** A schema with a reference that does not resolve, two levels below
    the subscription root: [Account] is missing. *)
Definition broken_graph : TypeGraph :=
  <["RootSubscriptionType" :=
      {| kind := KObject;
         fields := [ {| field_name := "newBlock"; field_type := TNamed "Block";
                        field_args := [] |} ] |}]>
  (<["Block" :=
      {| kind := KObject;
         fields := [ {| field_name := "hash"; field_type := TNamed "String";
                        field_args := [] |};
                     {| field_name := "miner"; field_type := TNamed "Account";
                        field_args := [] |} ] |}]>
  (<["String" := {| kind := KScalar; fields := [] |}]> ∅)).

Definition hide_password (t f : string) : bool :=
  String.eqb t "User" && String.eqb f "password".

End Engine.

(** ** The client *)

Module Client.
Import JS Engine.

(** [config.socketBaseUrl] is a string or a function of the data source. *)
Inductive socket_url :=
| UrlString (s : string)
| UrlFunction (f : string -> string).

(** The object given to [new BaseClient(config)]; a property that the
    caller leaves out is [None]. *)
Record user_config := {
  u_dataSource : option string;
  u_httpBaseUrl : option string;
  u_socketBaseUrl : option socket_url;
  u_enableQuery : option bool;
  u_enableSubscription : option bool;
  u_enableMutation : option bool }.

(** [this.config], after [Object.assign] over the defaults. *)
Record config := {
  dataSource : string;
  httpBaseUrl : string;
  socketBaseUrl : socket_url;
  enableQuery : bool;
  enableSubscription : bool;
  enableMutation : bool }.

Definition assign (ds : string) (c : user_config) : config :=
  {| dataSource := ds;
     httpBaseUrl := default "https://ocap.arcblock.io/api" (u_httpBaseUrl c);
     socketBaseUrl :=
       default (UrlFunction (fun ds => "wss://ocap.arcblock.io/api/" ++ ds ++ "/socket"))
               (u_socketBaseUrl c);
     enableQuery := default true (u_enableQuery c);
     enableSubscription := default true (u_enableSubscription c);
     enableMutation := default true (u_enableMutation c) |}.

(** [this.schema]: the types and the names of the three root types. *)
Record schema := {
  types : TypeGraph;
  queryType : option string;
  mutationType : option string;
  subscriptionType : option string }.

(** The root that the schema names for a kind, and the flag of the kind. *)
Definition root_type (k : operation_kind) (sch : schema) : option string :=
  match k with
  | Query => queryType sch
  | Mutation => mutationType sch
  | Subscription => subscriptionType sch
  end.

Definition enabled (k : operation_kind) (c : config) : bool :=
  match k with
  | Query => enableQuery c
  | Mutation => enableMutation c
  | Subscription => enableSubscription c
  end.

(** A function attached to the client: [fn.type], [fn.args], [fn.builder]. *)
Record generated_fn := {
  fn_type : operation_kind;
  fn_args : list (string * type_ref);
  fn_builder : list (string * value) -> result string }.

(** The client once constructed: the configuration that the constructor
    merged and the schema that it fetched, the generated functions that
    [this] holds under their names, and whether [this.subscriptions] is
    the object that the constructor made.  A function attached under
    the name [config], [schema] or that of a method is what [this] then
    holds under that name ([shadowed]). *)
Record client := {
  this_config : config;
  this_schema : schema;
  this_fns : list (string * generated_fn);
  this_subscriptions : bool }.

(** An event emitter on the heap: its readable members, the events that
    its holder has registered a listener for, and what was emitted on
    it, oldest first. *)
Record emitter := {
  members : list (string * value);
  listeners : list string;
  emitted : list (string * value) }.

(** The callback given to [setTimeout]: [() => this.socket.connect()]. *)
Inductive timer_callback := ReconnectSocket.

(** What the client does to its collaborators. *)
Inductive effect :=
| SocketNew (id : nat) (url : string)
| SocketConnect (id : nat)
| SocketOnMessage (id : nat)
| SocketOnConnError (id : nat)
| SocketChannel (sock chan : nat) (topic : string)
| ChannelJoin (chan : nat)
| ChannelPush (chan : nat) (event query : string)
| SetTimeout (delay : Z) (cb : timer_callback)
| AxiosPost (url query : string).

(** The mutable part of [this], the emitters it created, and the
    collaborators' side: the channels that report [isJoined()], the
    pending timers, and the trace of effects, oldest first. *)
Record state := {
  subscriptions : list (string * nat);
  heap : list emitter;
  socket : option nat;
  channel : option nat;
  joined : list nat;
  timers : list (Z * timer_callback);
  effects : list effect }.

Definition init_state : state :=
  {| subscriptions := []; heap := []; socket := None; channel := None;
     joined := []; timers := []; effects := [] |}.

Definition log (es : list effect) (st : state) : state :=
  {| subscriptions := subscriptions st; heap := heap st; socket := socket st;
     channel := channel st; joined := joined st; timers := timers st;
     effects := effects st ++ es |}.

Definition is_SocketNew (e : effect) : bool :=
  match e with SocketNew _ _ => true | _ => false end.
Definition is_SocketChannel (e : effect) : bool :=
  match e with SocketChannel _ _ _ => true | _ => false end.
Definition is_ChannelJoin (e : effect) : bool :=
  match e with ChannelJoin _ => true | _ => false end.

(** The [doc] pushes of a trace: the channel and the query of each. *)
Definition doc_push (e : effect) : option (nat * string) :=
  match e with
  | ChannelPush c ev q => if String.eqb ev "doc" then Some (c, q) else None
  | _ => None
  end.

Definition count (p : effect -> bool) (st : state) : nat :=
  length (List.filter p (effects st)).

Definition sockets_created := count is_SocketNew.
Definition channels_created := count is_SocketChannel.
Definition joins_issued := count is_ChannelJoin.
Definition doc_pushes (st : state) : list (nat * string) :=
  omap doc_push (effects st).

(** [this.channel && this.channel.isJoined()] *)
Definition channel_joined (st : state) : option nat :=
  match channel st with
  | Some c => if decide (c ∈ joined st) then Some c else None
  | None => None
  end.

(** Phoenix marks a channel joined when the [ok] reply to its join comes in. *)
Definition mark_joined (c : nat) (st : state) : state :=
  {| subscriptions := subscriptions st; heap := heap st; socket := socket st;
     channel := channel st; joined := c :: joined st; timers := timers st;
     effects := effects st |}.

(** [e.k] for an emitter. *)
Definition read_member (st : state) (r : nat) (k : string) : value :=
  match heap st !! r with
  | Some e => default VUndefined (obj_get k (members e))
  | None => VUndefined
  end.

Definition with_heap (h : list emitter) (st : state) : state :=
  {| subscriptions := subscriptions st; heap := h; socket := socket st;
     channel := channel st; joined := joined st; timers := timers st;
     effects := effects st |}.

(** [e.k = v] *)
Definition write_member (r : nat) (k : string) (v : value) (st : state) : state :=
  with_heap
    (alter (fun e => {| members := obj_set k v (members e);
                        listeners := listeners e; emitted := emitted e |})
           r (heap st)) st.

(** [e.on(name, listener)], what the holder of an emitter does with it. *)
Definition listen (r : nat) (name : string) (st : state) : state :=
  with_heap
    (alter (fun e => {| members := members e; listeners := name :: listeners e;
                        emitted := emitted e |})
           r (heap st)) st.

(** Whether the emitter has a listener for the event. *)
Definition listens (st : state) (r : nat) (name : string) : bool :=
  match heap st !! r with
  | Some e => existsb (String.eqb name) (listeners e)
  | None => false
  end.

(** An emission that goes through is recorded on the emitter. *)
Definition record_event (r : nat) (name : string) (v : value) (st : state) : state :=
  with_heap
    (alter (fun e => {| members := members e; listeners := listeners e;
                        emitted := emitted e ++ [(name, v)] |})
           r (heap st)) st.

(** [e.emit(name, v)], as the emitter of Node and of the [events]
    package has it: an [error] event that nobody listens for is thrown
    as an error (its message also renders the value, which is left out
    here); any other emission goes through. *)
Definition emit (r : nat) (name : string) (v : value) (st : state) : result state :=
  if String.eqb name "error" && negb (listens st r "error")
  then Err (Error "Unhandled error.")
  else Ok (record_event r name v st).

(** Emissions that go through on each emitter of a list, in order. *)
Definition emit_all (name : string) (v : value) (refs : list nat) (st : state)
  : state :=
  fold_left (fun s r => record_event r name v s) refs st.

Definition events (st : state) (r : nat) : list (string * value) :=
  match heap st !! r with
  | Some e => emitted e
  | None => []
  end.

(** The names that a plain object such as [this.subscriptions = {}]
    inherits from [Object.prototype]; each holds a function or an object. *)
Definition Object_prototype : list string :=
  ["constructor"; "__defineGetter__"; "__defineSetter__"; "hasOwnProperty";
   "__lookupGetter__"; "__lookupSetter__"; "isPrototypeOf";
   "propertyIsEnumerable"; "toString"; "valueOf"; "__proto__"; "toLocaleString"].

Definition inherited (k : string) : bool :=
  existsb (String.eqb k) Object_prototype.

(** What [this.subscriptions[queryId]] finds: the emitter recorded under
    the id, or else the member that the object inherits under that name. *)
Inductive found :=
| FoundRecord (r : nat)
| FoundInherited.

Definition lookup_subscription (st : state) (queryId : string) : option found :=
  match obj_get queryId (subscriptions st) with
  | Some r => Some (FoundRecord r)
  | None => if inherited queryId then Some FoundInherited else None
  end.

(** A reply of the channel to a push or a join. *)
Inductive reply :=
| ReplyOk (res : value)
| ReplyError (err : value).

(** The promise of [_ensureSubscriptionChannel]: already resolved with
    the channel, or waiting for the reply to the join of that channel. *)
Inductive channel_promise :=
| ChannelResolved (c : nat)
| ChannelPending (c : nat).

(** Where a call of a subscription function stands.  [Stuck]: a reply
    hook threw, the promise stays pending for ever. *)
Inductive phase :=
| Settled (o : outcome)
| AwaitChannel (p : channel_promise) (query queryId : string)
| AwaitReply (c : nat) (query queryId : string)
| Stuck (e : exn).

(** The response of axios: [res.status] and [res.data]. *)
Record response := {
  status : Z;
  data : value }.

Inductive axios_reply :=
| AxiosResolved (res : response)
| AxiosRejected (e : exn).

(** An [Error] object as [parse] and [print] throw them. *)
Record error_object := {
  message : string;
  toString : string }.

(** A call that either throws or returns a promise. *)
Inductive call_result :=
| Threw (e : exn)
| Returned (o : outcome).

Section BaseClient.

(** The methods that a subclass has to implement, and the two functions
    taken from the [graphql] package. *)
Variable _getSchema : string -> option schema.
Variable _getIgnoreFields : string -> string -> bool.
Variable _getQueryId : string -> string.
(** The members of a new instance of [_getEventImplementation()], given
    the reference it is stored at. *)
Variable EventEmitter : nat -> list (string * value).
Variable document : Type.
Variable parse : string -> error_object + document.
Variable print : document -> error_object + string.

(** Modelled from the spec: the three entry points of [./util] are
    [buildOperations] at the kind of the root ([./util] is missing). *)
Definition getQueryBuilders g rootName ignoreFields :=
  buildOperations g rootName ignoreFields Query.
Definition getSubscriptionBuilders g rootName ignoreFields :=
  buildOperations g rootName ignoreFields Subscription.
Definition getMutationBuilders g rootName ignoreFields :=
  buildOperations g rootName ignoreFields Mutation.

(** [Object.keys(builders).forEach(key => { ... this[key] = fn })] *)
Definition install (k : operation_kind)
    (builders : list (string * OperationDescriptor))
    (fns : list (string * generated_fn)) : list (string * generated_fn) :=
  fold_left
    (fun this key =>
       match obj_get key builders with
       | Some d =>
           obj_set key {| fn_type := k; fn_args := argsShape d;
                          fn_builder := build d |} this
       | None => this
       end)
    (obj_keys builders) fns.

(** The function that [install] attaches for a builder. *)
Definition attached (k : operation_kind) (d : OperationDescriptor) : generated_fn :=
  {| fn_type := k; fn_args := argsShape d; fn_builder := build d |}.

(** Whether [this] holds a generated function under the name: the
    assignment [this[key] = fn] replaces a member of that name and hides
    a method of the class. *)
Definition shadowed (name : string) (this : list (string * generated_fn)) : bool :=
  match obj_get name this with
  | Some _ => true
  | None => false
  end.

(** [const { types, queryType } = this.schema]: the root as [this.schema]
    has it at the time of the call; a function attached under [schema]
    has no such member. *)
Definition read_schema (root : schema -> option string) (sch : schema)
    (this : list (string * generated_fn)) : option string :=
  if shadowed "schema" this then None else root sch.

(** [this._getIgnoreFields.bind(this)]: the method of the subclass; a
    generated function attached under that name returns a promise,
    which is truthy at every field. *)
Definition ignoreFields (this : list (string * generated_fn))
  : string -> string -> bool :=
  if shadowed "_getIgnoreFields" this then fun _ _ => true else _getIgnoreFields.

Definition generateQueryFns (sch : schema) (fns : list (string * generated_fn))
  : result (list (string * generated_fn)) :=
  match read_schema queryType sch fns with
  | None => Ok fns
  | Some rootName =>
      let^ builders := getQueryBuilders (types sch) rootName (ignoreFields fns) in
      Ok (install Query builders fns)
  end.

Definition generateSubscriptionFns (sch : schema) (fns : list (string * generated_fn))
  : result (list (string * generated_fn)) :=
  match read_schema subscriptionType sch fns with
  | None => Ok fns
  | Some rootName =>
      let^ builders :=
        getSubscriptionBuilders (types sch) rootName (ignoreFields fns) in
      Ok (install Subscription builders fns)
  end.

Definition generateMutationFns (sch : schema) (fns : list (string * generated_fn))
  : result (list (string * generated_fn)) :=
  match read_schema mutationType sch fns with
  | None => Ok fns
  | Some rootName =>
      let^ builders := getMutationBuilders (types sch) rootName (ignoreFields fns) in
      Ok (install Mutation builders fns)
  end.

(** The generator of a kind. *)
Definition generateFns (k : operation_kind) :=
  match k with
  | Query => generateQueryFns
  | Subscription => generateSubscriptionFns
  | Mutation => generateMutationFns
  end.

(** [this.config.enableSubscription] and the like: the flag of the
    merged configuration; a function attached under [config] has no
    such member, and [undefined] is falsy. *)
Definition read_flag (flag : config -> bool) (config : config)
    (this : list (string * generated_fn)) : bool :=
  if shadowed "config" this then false else flag config.

(** [this.generateSubscriptionFns(this.schema)] and the like: the method
    of the class; a generated function attached under its name is async,
    so that the call generates nothing and throws nothing (the request
    that such a function may send is not part of the result). *)
Definition call_method (method : string)
    (generate : schema -> list (string * generated_fn)
                -> result (list (string * generated_fn)))
    (sch : schema) (this : list (string * generated_fn))
  : result (list (string * generated_fn)) :=
  if shadowed method this then Ok this else generate sch this.

(** [new BaseClient(config)]: the client, or what the constructor threw. *)
Definition constructor (c : user_config) : result client :=
  match u_dataSource c with
  | None | Some EmptyString => Err (Error "BaseClient requires dataSource config")
  | Some ds =>
      let config := assign ds c in
      match _getSchema (dataSource config) with
      | None => Err (Error ("BaseClient: unsupported dataSource " ++ dataSource config))
      | Some sch =>
          let^ fns1 := if enableQuery config then generateQueryFns sch [] else Ok [] in
          let^ fns2 := if read_flag enableSubscription config fns1
                       then
                         let^ fns := call_method "generateSubscriptionFns"
                                       generateSubscriptionFns sch fns1 in
                         (* [this.subscriptions = {}] *)
                         Ok (obj_delete "subscriptions" fns)
                       else Ok fns1 in
          let^ fns3 := if read_flag enableMutation config fns2
                       then call_method "generateMutationFns"
                              generateMutationFns sch fns2
                       else Ok fns2 in
          Ok {| this_config := config; this_schema := sch; this_fns := fns3;
                this_subscriptions :=
                  read_flag enableSubscription config fns1
                  && negb (shadowed "subscriptions" fns3) |}
      end
  end.





(** [_getApiList(type)] *)
Definition _getApiList (this : client) (k : operation_kind) : list string :=
  List.filter
    (fun x => match obj_get x (this_fns this) with
              | Some fn => match fn_type fn, k with
                           | Query, Query | Mutation, Mutation
                           | Subscription, Subscription => true
                           | _, _ => false
                           end
              | None => false
              end)
    (obj_keys (this_fns this)).

Definition getQueries this := _getApiList this Query.
Definition getSubscriptions this := _getApiList this Subscription.
Definition getMutations this := _getApiList this Mutation.

Variable cfg : config.

(** [_doRequest(query)], given what [axios.post] answers. *)
Definition _doRequest (st : state) (query : string) (answer : axios_reply)
  : state * outcome :=
  let url := httpBaseUrl cfg ++ "/" ++ dataSource cfg in
  let st' := log [AxiosPost url query] st in
  match answer with
  | AxiosRejected e => (st', Rejected e)
  | AxiosResolved res =>
      (* the arguments of [debug]: res.data.data and res.data.errors *)
      match get_prop (data res) "data", get_prop (data res) "errors" with
      | Err e, _ => (st', Rejected e)
      | _, Err e => (st', Rejected e)
      | Ok d, Ok _ =>
          if Z.eqb (status res) 200 then (st', Resolved d)
          else (st', Rejected (Error ("doRequest.error: " ++ pretty (status res))))
      end
  end.

(** [print(parse(query))] *)
Definition clean_query (query : string) : error_object + string :=
  match parse query with
  | inl err => inl err
  | inr ast => print ast
  end.

(** [err.message || err.toString()] *)
Definition error_text (err : error_object) : string :=
  match message err with
  | EmptyString => toString err
  | m => m
  end.

(** [doRawQuery(query)] *)
Definition doRawQuery (st : state) (query : string) (answer : axios_reply)
  : state * call_result :=
  match clean_query query with
  | inr cleanQuery =>
      let '(st', o) := _doRequest st cleanQuery answer in (st', Returned o)
  | inl err =>
      (st, Threw (Error ("BaseClient: invalid raw query " ++ error_text err)))
  end.

(** The generated [queryFn] and [mutationFn]. *)
Definition queryFn (builder : list (string * value) -> result string)
    (st : state) (args : list (string * value)) (answer : axios_reply)
  : state * outcome :=
  match builder args with
  | Err e => (st, Rejected e)
  | Ok query => _doRequest st query answer
  end.

Definition mutationFn := queryFn.

(** [_ensureSubscriptionChannel()]: the synchronous part, up to the
    promise it returns. *)
Definition _ensureSubscriptionChannel (st : state) : state * channel_promise :=
  match channel_joined st with
  | Some c => (st, ChannelResolved c)
  | None =>
      let url := match socketBaseUrl cfg with
                 | UrlFunction f => f (dataSource cfg)
                 | UrlString u => u
                 end in
      let s := sockets_created st in
      let c := channels_created st in
      (log [SocketNew s url; SocketConnect s; SocketOnMessage s;
            SocketOnConnError s; SocketChannel s c "__absinthe__:control";
            ChannelJoin c]
         {| subscriptions := subscriptions st; heap := heap st;
            socket := Some s; channel := Some c; joined := joined st;
            timers := timers st; effects := effects st |},
       ChannelPending c)
  end.

(** [Object.keys(this.subscriptions).find(x =>
      this.subscriptions[x].subscriptionId === payload.subscriptionId)] *)
Fixpoint find_queryId (st : state) (payload : value) (keys : list string)
  : result (option string) :=
  match keys with
  | [] => Ok None
  | x :: keys' =>
      match obj_get x (subscriptions st) with
      | None => Err (TypeError "Cannot read property subscriptionId of undefined")
      | Some r =>
          let^ sid := get_prop payload "subscriptionId" in
          if strict_eq (read_member st r "subscriptionId") sid then Ok (Some x)
          else find_queryId st payload keys'
      end
  end.

(** The handler given to [socket.onMessage]; [Err] when it throws. *)
Definition onMessage (st : state) (event : string) (payload : value)
  : state * result unit :=
  if String.eqb event "subscription:data" then
    match find_queryId st payload (obj_keys (subscriptions st)) with
    | Err e => (st, Err e)
    | Ok None => (st, Ok tt)
    | Ok (Some EmptyString) => (st, Ok tt)
    | Ok (Some queryId) =>
        match obj_get queryId (subscriptions st) with
        | None => (st, Err (TypeError "Cannot read property emit of undefined"))
        | Some r =>
            match (let^ res := get_prop payload "result" in get_prop res "data") with
            | Err e => (st, Err e)
            | Ok d =>
                match emit r "data" d st with
                | Ok st' => (st', Ok tt)
                | Err e => (st, Err e)
                end
            end
        end
    end
  else (st, Ok tt).

(** [Object.keys(this.subscriptions).forEach(queryId =>
      this.subscriptions[queryId].emit('error', err))]: the loop stops at
    the first emission that throws. *)
Fixpoint broadcast_error (keys : list string) (err : value) (st : state)
  : state * result unit :=
  match keys with
  | [] => (st, Ok tt)
  | queryId :: keys' =>
      match obj_get queryId (subscriptions st) with
      | None => (st, Err (TypeError "Cannot read property emit of undefined"))
      | Some r =>
          match emit r "error" err st with
          | Ok st' => broadcast_error keys' err st'
          | Err e => (st, Err e)
          end
      end
  end.

(** [setTimeout(() => { this.socket.connect() }, 1000)] *)
Definition arm_reconnect (st : state) : state :=
  log [SetTimeout 1000 ReconnectSocket]
    {| subscriptions := subscriptions st; heap := heap st; socket := socket st;
       channel := channel st; joined := joined st;
       timers := timers st ++ [(1000%Z, ReconnectSocket)];
       effects := effects st |}.

(** The handler given to [socket.onConnError]; [Err] when it throws, as
    it does, before the timer is set, when an emission throws. *)
Definition onConnError (st : state) (err : value) : state * result unit :=
  match broadcast_error (obj_keys (subscriptions st)) err st with
  | (st1, Ok _) => (arm_reconnect st1, Ok tt)
  | (st1, Err e) => (st1, Err e)
  end.

(** A timer fires: [this.socket.connect()]. *)
Definition fire_timer (st : state) : state :=
  match timers st, socket st with
  | (_, ReconnectSocket) :: rest, Some s =>
      log [SocketConnect s]
        {| subscriptions := subscriptions st; heap := heap st; socket := socket st;
           channel := channel st; joined := joined st; timers := rest;
           effects := effects st |}
  | _, _ => st
  end.

(** The generated [subscriptionFn], up to its [await]. *)
Definition subscriptionFn (builder : list (string * value) -> result string)
    (st : state) (args : list (string * value)) : state * phase :=
  match builder args with
  | Err e => (st, Settled (Rejected e))
  | Ok query =>
      let queryId := _getQueryId query in
      match lookup_subscription st queryId with
      | Some (FoundRecord r) =>
          (st, Settled (Resolved (read_member st r "emitter")))
      | Some FoundInherited =>
          (* the [emitter] member of an inherited function or object *)
          (st, Settled (Resolved VUndefined))
      | None =>
          let '(st', p) := _ensureSubscriptionChannel st in
          (st', AwaitChannel p query queryId)
      end
  end.

(** Calls made one after the other before any reply comes in: each runs
    up to its [await]. *)
Definition concurrent_calls (builder : list (string * value) -> result string)
    (argss : list (list (string * value))) (st : state) : state :=
  fold_left (fun s args => fst (subscriptionFn builder s args)) argss st.

(** [channel.push('doc', { query })] *)
Definition push_doc (st : state) (c : nat) (query queryId : string) : state * phase :=
  (log [ChannelPush c "doc" query] st, AwaitReply c query queryId).

(** The call resumes when the channel promise settles: at once when it
    was resolved, else with the reply to the join. *)
Definition subscriptionFn_channel (st : state) (p : channel_promise)
    (query queryId : string) (join_reply : reply) : state * phase :=
  match p with
  | ChannelResolved c => push_doc st c query queryId
  | ChannelPending c =>
      match join_reply with
      | ReplyOk _ =>
          (* [resolve(this.channel)]: the channel of [this] at that time *)
          let st' := mark_joined c st in
          match channel st' with
          | Some c' => push_doc st' c' query queryId
          | None => (st', Stuck (TypeError "Cannot read property push of undefined"))
          end
      | ReplyError err => (st, Settled (Rejected (Thrown err)))
      end
  end.

(** The two [receive] hooks of the push. *)
Definition subscriptionFn_reply (st : state) (queryId : string) (push_reply : reply)
  : state * phase :=
  match push_reply with
  | ReplyOk res =>
      let r := length (heap st) in
      let st1 :=
        {| subscriptions := obj_set queryId r (subscriptions st);
           heap := heap st ++ [{| members := EventEmitter r; listeners := [];
                                  emitted := [] |}];
           socket := socket st; channel := channel st; joined := joined st;
           timers := timers st; effects := effects st |} in
      match obj_get queryId (subscriptions st1) with
      | None => (st1, Stuck (TypeError "Cannot set property subscriptionId of undefined"))
      | Some r1 =>
          match get_prop res "subscriptionId" with
          | Err e => (st1, Stuck e)
          | Ok sid =>
              let st2 := write_member r1 "subscriptionId" sid st1 in
              (st2, Settled (Resolved (match obj_get queryId (subscriptions st2) with
                                       | Some r2 => VRef r2
                                       | None => VUndefined
                                       end)))
          end
      end
  | ReplyError err => (st, Settled (Rejected (Thrown err)))
  end.

(** A whole call with nothing else running in between: the replies are
    consumed when the call reaches them. *)
Definition subscribe (builder : list (string * value) -> result string)
    (st : state) (args : list (string * value)) (join_reply push_reply : reply)
  : state * phase :=
  match subscriptionFn builder st args with
  | (st1, AwaitChannel p query queryId) =>
      match subscriptionFn_channel st1 p query queryId join_reply with
      | (st2, AwaitReply _ _ queryId') => subscriptionFn_reply st2 queryId' push_reply
      | other => other
      end
  | other => other
  end.

(** A suspended call goes on when the reply that it waits for comes in:
    the reply to the join, or the reply to the push. *)
Definition resume (st : state) (ph : phase) (r : reply) : state * phase :=
  match ph with
  | AwaitChannel p query queryId => subscriptionFn_channel st p query queryId r
  | AwaitReply _ _ queryId => subscriptionFn_reply st queryId r
  | _ => (st, ph)
  end.

(** Two calls made before any reply comes in; then the replies to the two
    joins, then the replies to the two pushes, each in the order of the
    calls. *)
Definition racing_calls (builder : list (string * value) -> result string)
    (st : state) (args1 args2 : list (string * value))
    (join1 join2 push1 push2 : reply) : state * phase * phase :=
  let '(s1, a1) := subscriptionFn builder st args1 in
  let '(s2, b1) := subscriptionFn builder s1 args2 in
  let '(s3, a2) := resume s2 a1 join1 in
  let '(s4, b2) := resume s3 b1 join2 in
  let '(s5, a3) := resume s4 a2 push1 in
  let '(s6, b3) := resume s5 b2 push2 in
  (s6, a3, b3).

(** Whole calls made one after the other, each with its replies. *)
Definition subscribe_each (builder : list (string * value) -> result string)
    (calls : list (list (string * value) * reply * reply)) (st : state) : state :=
  fold_left (fun s '(args, jr, pr) => fst (subscribe builder s args jr pr)) calls st.

(** The states of a running client: what the calls of the subscription
    functions, the replies of the channel, the handlers of the socket,
    the timer, the requests and the listeners that the holders of the
    emitters register make of the initial state.  A reply to a
    join is one for a channel that a socket created; a reply to a push
    is one for a query id that the lookup of the call did not find. *)
Inductive reachable : state -> Prop :=
| reachable_init : reachable init_state
| reachable_call st builder args :
    reachable st -> reachable (fst (subscriptionFn builder st args))
| reachable_join st p query queryId jr :
    reachable st ->
    (forall c, p = ChannelPending c -> c < channels_created st) ->
    reachable (fst (subscriptionFn_channel st p query queryId jr))
| reachable_reply st queryId pr :
    reachable st -> inherited queryId = false ->
    reachable (fst (subscriptionFn_reply st queryId pr))
| reachable_subscribe st builder args jr pr :
    reachable st -> reachable (fst (subscribe builder st args jr pr))
| reachable_message st event payload :
    reachable st -> reachable (fst (onMessage st event payload))
| reachable_conn_error st err :
    reachable st -> reachable (fst (onConnError st err))
| reachable_listen st r name :
    reachable st -> reachable (listen r name st)
| reachable_timer st :
    reachable st -> reachable (fire_timer st)
| reachable_request st query answer :
    reachable st -> reachable (fst (_doRequest st query answer)).

End BaseClient.

(** Every record holds an emitter of the heap, the records have distinct
    keys and distinct emitters, and a joined channel is one that a socket
    created. *)
Definition wf (st : state) : Prop :=
  (forall q r, In (q, r) (subscriptions st) -> r < length (heap st)) /\
  NoDup (obj_keys (subscriptions st)) /\
  NoDup (map snd (subscriptions st)) /\
  (forall c, c ∈ joined st -> c < channels_created st).

End Client.

(** ** A client to run the model on *)

Module Demo.
Import JS Engine Client.

Definition demo_user_config : user_config :=
  {| u_dataSource := Some "eth"; u_httpBaseUrl := None;
     u_socketBaseUrl := None; u_enableQuery := None;
     u_enableSubscription := None; u_enableMutation := None |}.

Definition demo_config : config := assign "eth" demo_user_config.

(** A query id that determines the query. *)
Definition fingerprint (q : string) : string := "id:" ++ q.

(** An emitter without data members of its own, as the one of Node. *)
Definition plain_emitter (r : nat) : list (string * value) := [].

Definition demo_builder (args : list (string * value)) : result string :=
  Ok ("subscription{newBlock(" ++ render_value (VObject args) ++ ")}").

Definition ok_reply (sid : string) : reply :=
  ReplyOk (VObject [("subscriptionId", VStr sid)]).

(** The schema of [user_graph], with its query root only. *)
Definition demo_schema : schema :=
  {| types := user_graph; queryType := Some "RootQueryType";
     mutationType := None; subscriptionType := None |}.

(** A client with a query and a subscription. *)
Definition demo_client : client :=
  let d := {| name := "blocks"; op_kind := Query; op_args := [];
              return_type := "Block"; selection_set := [] |} in
  {| this_config := demo_config; this_schema := demo_schema;
     this_fns := [("blocks", attached Query d); ("newBlock", attached Subscription d)];
     this_subscriptions := true |}.

End Demo.

(** ** Facts about objects *)

Module JSFacts.
Import JS.

Lemma obj_get_set_eq {A} k (v : A) o : obj_get k (obj_set k v o) = Some v.
Proof.
  induction o as [|[k' v'] o IH]; simpl.
  - now rewrite String.eqb_refl.
  - destruct (String.eqb_spec k k') as [->|Hk]; simpl.
    + now rewrite String.eqb_refl.
    + destruct (String.eqb_spec k k'); [contradiction | assumption].
Qed.

Lemma obj_get_set_ne {A} k k' (v : A) o :
  k <> k' -> obj_get k' (obj_set k v o) = obj_get k' o.
Proof.
  intros Hne. induction o as [|[k0 v0] o IH]; simpl.
  - destruct (String.eqb_spec k' k); congruence.
  - destruct (String.eqb_spec k k0) as [->|Hk]; simpl.
    + destruct (String.eqb_spec k' k0); congruence.
    + now rewrite IH.
Qed.

Lemma obj_get_None_keys {A} k (o : list (string * A)) :
  obj_get k o = None <-> ~ In k (obj_keys o).
Proof.
  induction o as [|[k' v'] o IH]; simpl; [tauto|].
  destruct (String.eqb_spec k k') as [->|Hk]; split; intros H.
  - discriminate.
  - exfalso. apply H. now left.
  - intros [Heq|Hin]; [congruence | now apply IH in H].
  - apply IH. intros Hin. apply H. now right.
Qed.

Lemma get_prop_not_nullish v k :
  is_nullish v = false -> exists w, get_prop v k = Ok w.
Proof. destruct v; simpl; intros H; try discriminate; eauto. Qed.

Lemma In_obj_set {A} key (d : A) k0 d0 o :
  In (key, d) (obj_set k0 d0 o) -> (key, d) = (k0, d0) \/ In (key, d) o.
Proof.
  induction o as [|[k1 d1] o IH]; simpl.
  - intros [H|[]]; auto.
  - destruct (String.eqb k0 k1); simpl; intros [H|H]; auto.
    destruct (IH H); auto.
Qed.

Lemma obj_get_delete {A} k k' (o : list (string * A)) :
  obj_get k' (obj_delete k o) = if String.eqb k k' then None else obj_get k' o.
Proof.
  induction o as [|[k0 v0] o IH]; simpl; [now destruct (String.eqb k k')|].
  destruct (String.eqb_spec k k0) as [->|Hk]; simpl.
  - rewrite IH. destruct (String.eqb_spec k0 k') as [->|Hne]; [reflexivity|].
    destruct (String.eqb_spec k' k0); congruence.
  - rewrite IH. destruct (String.eqb_spec k' k0) as [->|Hne]; [|reflexivity].
    destruct (String.eqb_spec k k0); congruence.
Qed.

End JSFacts.

(** ** Facts about the engine *)

Module EngineFacts.
Import JS Engine JSFacts.

Section Walk.

Variable g : TypeGraph.
Variable excl : string -> string -> bool.

(** A path of distinct types of the graph is no longer than the graph. *)
Lemma path_bounded (path : list string) :
  NoDup path -> (forall x, x ∈ path -> is_Some (g !! x)) ->
  length path <= size g.
Proof.
  intros Hnd Hin.
  rewrite <- (size_dom g), <- (size_list_to_set (C := gset string) path Hnd).
  apply subseteq_size. intros x Hx.
  apply elem_of_list_to_set in Hx. apply elem_of_dom. auto.
Qed.

Lemma select_fields_some enter path tname fs :
  (forall rt, rt ∉ tname :: path -> is_Some (enter rt)) ->
  is_Some (select_fields enter excl path tname fs).
Proof.
  intros Henter. induction fs as [|f fs IH]; simpl; [eauto|].
  destruct (excl tname (field_name f)); [exact IH|].
  destruct (decide _) as [|Hnot]; [exact IH|].
  destruct (Henter _ Hnot) as [[sub|e] ->]; [|eauto].
  destruct IH as [[rest|e] ->]; eauto.
Qed.

(** The depth budget suffices as soon as it exceeds what is left of the
    graph below the path. *)
Lemma select_type_fuel_enough fuel : forall path tname,
  NoDup path -> (forall x, x ∈ path -> is_Some (g !! x)) -> tname ∉ path ->
  size g < length path + fuel ->
  is_Some (select_type fuel g excl path tname).
Proof.
  induction fuel as [|fuel IH]; intros path tname Hnd Hin Hnot Hsz.
  - pose proof (path_bounded path Hnd Hin). lia.
  - simpl. destruct (g !! tname) as [t|] eqn:Ht; [|eauto].
    destruct (kind t); eauto.
    apply select_fields_some. intros rt Hrt. apply IH.
    + constructor; assumption.
    + intros x Hx. apply elem_of_cons in Hx as [->|Hx]; eauto.
    + exact Hrt.
    + simpl. lia.
Qed.



Lemma select_fields_no_reentry enter path tname fs sels :
  (forall rt sub, rt ∉ tname :: path -> enter rt = Some (Ok sub) ->
                  forallb (no_reentry (rt :: tname :: path)) sub = true) ->
  select_fields enter excl path tname fs = Some (Ok sels) ->
  forallb (no_reentry (tname :: path)) sels = true.
Proof.
  intros Henter. revert sels.
  induction fs as [|f fs IH]; simpl; intros sels.
  - intros [= <-]. reflexivity.
  - destruct (excl tname (field_name f)); [apply IH|].
    destruct (decide _) as [|Hnot]; [apply IH|].
    destruct (enter _) as [[sub|e']|] eqn:E; try discriminate.
    destruct (select_fields _ _ _ _ fs) as [[rest|e']|]; try discriminate.
    intros [= <-]. simpl.
    destruct (decide _) as [Hin|_]; [contradiction|]. simpl.
    rewrite (Henter _ _ Hnot E). simpl. apply IH. reflexivity.
Qed.

(** The selection set of a type names no type entered above it, at any
    depth. *)
Lemma select_type_no_reentry fuel : forall path tname sels,
  select_type fuel g excl path tname = Some (Ok sels) ->
  forallb (no_reentry (tname :: path)) sels = true.
Proof.
  induction fuel as [|fuel IH]; intros path tname sels; simpl; [discriminate|].
  destruct (g !! tname) as [t|]; [|discriminate].
  destruct (kind t); try (intros [= <-]; reflexivity).
  apply select_fields_no_reentry. intros rt sub _. apply IH.
Qed.

Lemma select_fields_closed enter path tname fs :
  (forall f, In f fs -> named (field_type f) ∉ tname :: path ->
             exists sub, enter (named (field_type f)) = Some (Ok sub)) ->
  exists sels, select_fields enter excl path tname fs = Some (Ok sels).
Proof.
  induction fs as [|f fs IH]; simpl; intros Henter; [eauto|].
  assert (IH' : exists sels, select_fields enter excl path tname fs = Some (Ok sels))
    by (apply IH; intros; apply Henter; auto).
  destruct (excl tname (field_name f)); [exact IH'|].
  destruct (decide _) as [|Hnot]; [exact IH'|].
  destruct (Henter f (or_introl eq_refl) Hnot) as [sub ->].
  destruct IH' as [rest ->]. eauto.
Qed.

(** On a closed graph the walk produces a selection set. *)
Lemma select_type_closed fuel : closed g -> forall path tname,
  NoDup path -> (forall x, x ∈ path -> is_Some (g !! x)) -> tname ∉ path ->
  is_Some (g !! tname) -> size g < length path + fuel ->
  exists sels, select_type fuel g excl path tname = Some (Ok sels).
Proof.
  intros Hc. induction fuel as [|fuel IH]; intros path tname Hnd Hin Hnot [t Ht] Hsz.
  - pose proof (path_bounded path Hnd Hin). lia.
  - simpl. rewrite Ht. destruct (kind t); eauto.
    apply select_fields_closed. intros f Hf Hrt. apply IH.
    + constructor; assumption.
    + intros x Hx. apply elem_of_cons in Hx as [->|Hx]; eauto.
    + exact Hrt.
    + exact (Hc _ _ _ Ht Hf).
    + simpl. lia.
Qed.

Variable k : operation_kind.
Variable root : string.

Lemma build_fields_some fuel fs :
  is_Some (g !! root) -> size g < 1 + fuel ->
  is_Some (build_fields fuel g excl k root fs).
Proof.
  intros Hroot Hsz. induction fs as [|f fs IH]; simpl; [eauto|].
  assert (Hsel : is_Some (if decide (named (field_type f) ∈ [root]) then Some (Ok [])
                          else select_type fuel g excl [root] (named (field_type f)))).
  { destruct (decide _) as [|Hnot]; [eauto|].
    apply select_type_fuel_enough; auto.
    - apply NoDup_singleton.
    - intros x Hx. apply list_elem_of_singleton in Hx as ->. exact Hroot. }
  destruct Hsel as [[sub|e] ->]; [|eauto].
  destruct IH as [[rest|e] ->]; eauto.
Qed.


Lemma build_fields_no_reentry fuel fs ops key d :
  build_fields fuel g excl k root fs = Some (Ok ops) -> In (key, d) ops ->
  forallb (no_reentry [return_type d; root]) (selection_set d) = true.
Proof.
  revert ops. induction fs as [|f fs IH]; simpl; intros ops.
  - intros [= <-] [].
  - destruct (if decide _ then _ else _) as [[sub|e]|] eqn:E; try discriminate.
    destruct (build_fields _ _ _ _ _ fs) as [[rest|e]|]; try discriminate.
    intros [= <-] Hin. apply In_obj_set in Hin as [[= -> ->]|Hin]; [|eauto].
    simpl. destruct (decide _); [injection E as <-; reflexivity|].
    eapply select_type_no_reentry. exact E.
Qed.

Lemma build_fields_closed fuel fs :
  closed g -> is_Some (g !! root) -> size g < 1 + fuel ->
  (forall f, In f fs -> is_Some (g !! named (field_type f))) ->
  exists ops, build_fields fuel g excl k root fs = Some (Ok ops).
Proof.
  intros Hc Hroot Hsz. induction fs as [|f fs IH]; simpl; intros Hfs; [eauto|].
  destruct IH as [rest ->]; [intros; apply Hfs; auto|].
  destruct (decide _) as [|Hnot]; [eauto|].
  destruct (select_type_closed fuel Hc [root] (named (field_type f))) as [sub ->]; eauto.
  - apply NoDup_singleton.
  - intros x Hx. apply list_elem_of_singleton in Hx as ->. exact Hroot.
Qed.




Lemma closedb_closed : closedb g = true -> closed g.
Proof.
  intros H t T f Ht Hf. apply bool_decide_eq_true in H.
  specialize (H t T Ht). unfold resolves in H. rewrite forallb_forall in H.
  specialize (H f Hf). now apply bool_decide_eq_true in H.
Qed.

(** The budget of [buildOperations] never runs out. *)
Lemma buildOperations_fuel_enough :
  is_Some (buildOperations_fuel (S (size g)) g root excl k).
Proof.
  unfold buildOperations_fuel. destruct (g !! root) as [T|] eqn:HT; [|eauto].
  apply build_fields_some; [eauto | lia].
Qed.





End Walk.

End EngineFacts.

(** ** Facts about the client *)

Module ClientFacts.
Import JS Engine Client JSFacts.

Lemma obj_get_In {A} k (v : A) o : obj_get k o = Some v -> In (k, v) o.
Proof.
  induction o as [|[k' v'] o IH]; simpl; [discriminate|].
  destruct (String.eqb_spec k k') as [->|Hk].
  - intros [= ->]. now left.
  - intros H. right. auto.
Qed.

Lemma obj_get_key {A} k (o : list (string * A)) :
  In k (obj_keys o) -> is_Some (obj_get k o).
Proof.
  intros Hin. destruct (obj_get k o) eqn:E; [eauto|].
  apply obj_get_None_keys in E. contradiction.
Qed.

Lemma In_obj_get {A} k (v : A) o :
  NoDup (obj_keys o) -> In (k, v) o -> obj_get k o = Some v.
Proof.
  induction o as [|[k' v'] o IH]; simpl; [intros _ []|].
  intros Hnd [[= -> ->]|Hin].
  - now rewrite String.eqb_refl.
  - apply NoDup_cons in Hnd as [Hk' Hnd].
    destruct (String.eqb_spec k k') as [->|Hk]; [|auto].
    exfalso. apply Hk'. apply list_elem_of_In.
    change k' with (fst (k', v)). now apply in_map.
Qed.

Lemma obj_keys_set {A} k (v : A) o :
  obj_keys (obj_set k v o) =
  match obj_get k o with
  | Some _ => obj_keys o
  | None => (obj_keys o ++ [k])%list
  end.
Proof.
  induction o as [|[k' v'] o IH]; simpl; [reflexivity|].
  destruct (String.eqb_spec k k') as [->|Hk]; simpl; [reflexivity|].
  rewrite IH. now destruct (obj_get k o).
Qed.

(** *** The trace *)

Lemma count_log p es st :
  count p (log es st) = count p st + length (List.filter p es).
Proof. unfold count, log. simpl. now rewrite List.filter_app, length_app. Qed.

Lemma doc_pushes_log es st :
  doc_pushes (log es st) = (doc_pushes st ++ omap doc_push es)%list.
Proof. unfold doc_pushes, log. simpl. apply omap_app. Qed.

(** *** Requests *)

Lemma doRequest_effects cfg st query answer :
  effects (fst (_doRequest cfg st query answer)) =
  (effects st ++ [AxiosPost (httpBaseUrl cfg ++ "/" ++ dataSource cfg) query])%list.
Proof.
  unfold _doRequest. destruct answer as [res|e]; [|reflexivity].
  destruct (get_prop (data res) "data"), (get_prop (data res) "errors");
    try reflexivity.
  now destruct (Z.eqb (status res) 200).
Qed.

(** *** Inbound messages *)

Lemma find_queryId_none st payload sid keys :
  get_prop payload "subscriptionId" = Ok sid ->
  (forall q r, In (q, r) (subscriptions st) ->
               strict_eq (read_member st r "subscriptionId") sid = false) ->
  (forall x, In x keys -> In x (obj_keys (subscriptions st))) ->
  find_queryId st payload keys = Ok None.
Proof.
  intros Hsid Hno. induction keys as [|x keys IH]; intros Hkeys; [reflexivity|].
  simpl. destruct (obj_get_key x (subscriptions st)) as [r Hr].
  { apply Hkeys. now left. }
  rewrite Hr, Hsid. simpl.
  rewrite (Hno x r (obj_get_In _ _ _ Hr)).
  apply IH. intros y Hy. apply Hkeys. now right.
Qed.

(** *** Emitters *)

Lemma events_record r name v st r' :
  events (record_event r name v st) r' =
  if decide (r = r') then
    match heap st !! r with
    | Some _ => (events st r ++ [(name, v)])%list
    | None => []
    end
  else events st r'.
Proof.
  unfold events, record_event. simpl. destruct (decide (r = r')) as [<-|Hne].
  - rewrite list_lookup_alter_eq. now destruct (heap st !! r).
  - now rewrite list_lookup_alter_ne.
Qed.

Lemma length_heap_record r name v st :
  length (heap (record_event r name v st)) = length (heap st).
Proof. unfold record_event. simpl. apply length_alter. Qed.

Lemma listens_record r name v st r' name' :
  listens (record_event r name v st) r' name' = listens st r' name'.
Proof.
  unfold listens, record_event. simpl. destruct (decide (r = r')) as [<-|Hne].
  - rewrite list_lookup_alter_eq. now destruct (heap st !! r).
  - now rewrite list_lookup_alter_ne.
Qed.

(** An emission of another event than [error] goes through. *)
Lemma emit_data r v st : emit r "data" v st = Ok (record_event r "data" v st).
Proof. reflexivity. Qed.

Lemma emit_error r v st :
  emit r "error" v st
  = if listens st r "error" then Ok (record_event r "error" v st)
    else Err (Error "Unhandled error.").
Proof. unfold emit. cbn. now destruct (listens st r "error"). Qed.

Lemma emit_all_frame name v refs : forall st,
  subscriptions (emit_all name v refs st) = subscriptions st /\
  socket (emit_all name v refs st) = socket st /\
  channel (emit_all name v refs st) = channel st /\
  joined (emit_all name v refs st) = joined st /\
  timers (emit_all name v refs st) = timers st /\
  effects (emit_all name v refs st) = effects st /\
  length (heap (emit_all name v refs st)) = length (heap st).
Proof.
  induction refs as [|r refs IH]; intros st; simpl; [tauto|].
  destruct (IH (record_event r name v st)) as (H1 & H2 & H3 & H4 & H5 & H6 & H7).
  rewrite H1, H2, H3, H4, H5, H6, H7, length_heap_record. tauto.
Qed.

Lemma events_emit_all name v refs : forall st r,
  NoDup refs -> (forall x, x ∈ refs -> x < length (heap st)) ->
  events (emit_all name v refs st) r =
  (events st r ++ if decide (r ∈ refs) then [(name, v)] else [])%list.
Proof.
  induction refs as [|x refs IH]; intros st r Hnd Hlt.
  - change (emit_all name v [] st) with st.
    destruct (decide (r ∈ [])) as [Hin|_]; [inversion Hin | now rewrite app_nil_r].
  - change (emit_all name v (x :: refs) st)
      with (emit_all name v refs (record_event x name v st)).
    apply NoDup_cons in Hnd as [Hx Hnd].
    rewrite IH; [|assumption|].
    2:{ intros y Hy. rewrite length_heap_record. apply Hlt. now right. }
    rewrite events_record.
    destruct (lookup_lt_is_Some_2 (heap st) x) as [e He].
    { apply Hlt. now left. }
    rewrite He.
    destruct (decide (x = r)) as [->|Hne].
    + destruct (decide (r ∈ refs)); [contradiction|].
      destruct (decide (r ∈ r :: refs)) as [_|Hn]; [now rewrite app_nil_r|].
      exfalso. apply Hn. now left.
    + destruct (decide (r ∈ refs)) as [Hin|Hnin].
      * destruct (decide (r ∈ x :: refs)) as [_|Hn]; [reflexivity|].
        exfalso. apply Hn. now right.
      * destruct (decide (r ∈ x :: refs)) as [Hin|_]; [|reflexivity].
        apply elem_of_cons in Hin as [->|Hin]; contradiction.
Qed.

(** The loop of [onConnError] changes emitters only, also when it stops. *)
Lemma broadcast_error_frame err keys : forall st,
  subscriptions (fst (broadcast_error keys err st)) = subscriptions st /\
  socket (fst (broadcast_error keys err st)) = socket st /\
  channel (fst (broadcast_error keys err st)) = channel st /\
  joined (fst (broadcast_error keys err st)) = joined st /\
  timers (fst (broadcast_error keys err st)) = timers st /\
  effects (fst (broadcast_error keys err st)) = effects st /\
  length (heap (fst (broadcast_error keys err st))) = length (heap st).
Proof.
  induction keys as [|q keys IH]; intros st; cbn [broadcast_error]; [tauto|].
  destruct (obj_get q (subscriptions st)) as [r|]; [|cbn; tauto].
  rewrite emit_error. destruct (listens st r "error"); [|cbn; tauto].
  destruct (IH (record_event r "error" err st)) as (H1 & H2 & H3 & H4 & H5 & H6 & H7).
  rewrite H1, H2, H3, H4, H5, H6, H7, length_heap_record. tauto.
Qed.

(** When every emitter on the way listens for [error], the loop is
    [emit_all] on the recorded emitters. *)
Lemma broadcast_error_heard err keys : forall st,
  (forall q, In q keys -> exists r, obj_get q (subscriptions st) = Some r /\
                                    listens st r "error" = true) ->
  broadcast_error keys err st
  = (emit_all "error" err (omap (fun q => obj_get q (subscriptions st)) keys) st,
     Ok tt).
Proof.
  induction keys as [|q keys IH]; intros st Hall; cbn [broadcast_error]; [reflexivity|].
  destruct (Hall q (or_introl eq_refl)) as (r & Hr & Hl).
  rewrite Hr, emit_error, Hl.
  change (omap (fun q => obj_get q (subscriptions st)) (q :: keys))
    with (match obj_get q (subscriptions st) with
          | Some r' => r' :: omap (fun q => obj_get q (subscriptions st)) keys
          | None => omap (fun q => obj_get q (subscriptions st)) keys
          end).
  rewrite Hr.
  rewrite IH; [reflexivity|].
  intros q' Hq'. destruct (Hall q' (or_intror Hq')) as (r' & Hr' & Hl').
  exists r'. split; [exact Hr'|]. now rewrite listens_record.
Qed.

(** When an emitter on the way does not listen for [error], the loop
    stops with an error. *)
Lemma broadcast_error_unheard err keys : forall st,
  (exists q r, In q keys /\ obj_get q (subscriptions st) = Some r /\
               listens st r "error" = false) ->
  exists e, snd (broadcast_error keys err st) = Err e.
Proof.
  induction keys as [|q keys IH]; intros st (q0 & r0 & Hin & Hr0 & Hl0);
    [destruct Hin|]. cbn [broadcast_error].
  destruct (obj_get q (subscriptions st)) as [r|] eqn:Hr; [|cbn; eauto].
  rewrite emit_error. destruct (listens st r "error") eqn:Hl; [|cbn; eauto].
  apply IH. destruct Hin as [->|Hin]; [congruence|].
  exists q0, r0. repeat split; auto. now rewrite listens_record.
Qed.

(** An emitter without a listener for [error] gets no event from the
    loop, however far the loop runs. *)
Lemma broadcast_error_silent err keys : forall st r,
  listens st r "error" = false ->
  events (fst (broadcast_error keys err st)) r = events st r.
Proof.
  induction keys as [|q keys IH]; intros st r Hr; cbn [broadcast_error]; [reflexivity|].
  destruct (obj_get q (subscriptions st)) as [r0|]; [|reflexivity].
  rewrite emit_error. destruct (listens st r0 "error") eqn:Hl; [|reflexivity].
  rewrite IH by now rewrite listens_record.
  rewrite events_record. destruct (decide (r0 = r)) as [->|_]; [congruence|reflexivity].
Qed.

(** The timer that [arm_reconnect] sets, once the earlier timers have
    fired, reconnects the socket that [this.socket] holds. *)
Lemma fire_after_arm st s :
  socket st = Some s -> timers st = [] ->
  fire_timer (arm_reconnect st)
  = log [SetTimeout 1000 ReconnectSocket; SocketConnect s] st.
Proof.
  intros Hs Ht. unfold fire_timer, arm_reconnect, log. cbn.
  rewrite Ht, Hs. cbn. rewrite <- Ht. rewrite <- app_assoc.
  destruct st; cbn in *. subst. reflexivity.
Qed.

Lemma omap_obj_get_keys {A} (o : list (string * A)) :
  NoDup (obj_keys o) -> omap (fun q => obj_get q o) (obj_keys o) = map snd o.
Proof.
  intros Hnd.
  assert (H : forall l, (forall p, In p l -> In p o) ->
                        omap (fun q => obj_get q o) (map fst l) = map snd l).
  { induction l as [|[q v] l IH]; intros Hl; simpl; [reflexivity|].
    rewrite (In_obj_get q v o Hnd) by (apply Hl; now left).
    f_equal. apply IH. intros p Hp. apply Hl. now right. }
  apply H. auto.
Qed.

(** *** Looking a query id up *)


Lemma lookup_record st q r :
  obj_get q (subscriptions st) = Some r ->
  lookup_subscription st q = Some (FoundRecord r).
Proof. unfold lookup_subscription. now intros ->. Qed.

Lemma lookup_same st st' q :
  subscriptions st' = subscriptions st ->
  lookup_subscription st' q = lookup_subscription st q.
Proof. unfold lookup_subscription. now intros ->. Qed.

(** *** The channel *)

Section Channel.

Variable _getQueryId : string -> string.
Variable EventEmitter : nat -> list (string * value).
Variable cfg : config.

Lemma ensure_joined st c :
  channel_joined st = Some c ->
  _ensureSubscriptionChannel cfg st = (st, ChannelResolved c).
Proof. unfold _ensureSubscriptionChannel. now intros ->. Qed.

Lemma ensure_not_joined st :
  channel_joined st = None ->
  let st' := fst (_ensureSubscriptionChannel cfg st) in
  snd (_ensureSubscriptionChannel cfg st) = ChannelPending (channels_created st) /\
  subscriptions st' = subscriptions st /\ heap st' = heap st /\
  joined st' = joined st /\ timers st' = timers st /\
  socket st' = Some (sockets_created st) /\
  channel st' = Some (channels_created st) /\
  sockets_created st' = S (sockets_created st) /\
  channels_created st' = S (channels_created st) /\
  joins_issued st' = S (joins_issued st) /\
  doc_pushes st' = doc_pushes st.
Proof.
  intros H. unfold _ensureSubscriptionChannel. rewrite H. cbn [fst snd].
  unfold sockets_created, channels_created, joins_issued.
  rewrite !count_log, doc_pushes_log. simpl.
  unfold count, doc_pushes. simpl. rewrite app_nil_r.
  repeat split; lia.
Qed.

Lemma wf_ensure st :
  wf st -> wf (fst (_ensureSubscriptionChannel cfg st)).
Proof.
  intros Hwf. destruct (channel_joined st) as [c|] eqn:E.
  - now rewrite (ensure_joined st c E).
  - destruct (ensure_not_joined st E) as (_ & Hs & Hh & Hj & _ & _ & _ & _ & Hc & _).
    destruct Hwf as (H1 & H2 & H3 & H4). unfold wf.
    rewrite Hs, Hh, Hj, Hc. repeat split; auto.
    intros c Hin. specialize (H4 c Hin). lia.
Qed.

(** A channel that was just created has not been joined. *)
Lemma ensure_still_not_joined st :
  wf st -> channel_joined st = None ->
  channel_joined (fst (_ensureSubscriptionChannel cfg st)) = None.
Proof.
  intros Hwf E.
  destruct (ensure_not_joined st E) as (_ & _ & _ & Hj & _ & _ & Hc & _).
  unfold channel_joined. rewrite Hc, Hj.
  destruct (decide _) as [Hin|_]; [|reflexivity].
  destruct Hwf as (_ & _ & _ & H4). specialize (H4 _ Hin). lia.
Qed.

(** After the synchronous part and an [ok] to the join, if one was
    needed, the call pushes its query on the current channel. *)
Lemma subscribe_reaches_push st query queryId jr :
  (channel_joined st = None -> exists j, jr = ReplyOk j) ->
  let '(st1, p) := _ensureSubscriptionChannel cfg st in
  exists c st2,
    subscriptionFn_channel st1 p query queryId jr
      = (st2, AwaitReply c query queryId) /\
    subscriptions st2 = subscriptions st /\ heap st2 = heap st /\
    channel_joined st2 = Some c /\
    doc_pushes st2 = (doc_pushes st ++ [(c, query)])%list /\
    (forall c0, channel_joined st = Some c0 -> c = c0).
Proof.
  intros Hjr. destruct (channel_joined st) as [c|] eqn:E.
  - rewrite (ensure_joined st c E). exists c. eexists.
    split; [reflexivity|].
    rewrite doc_pushes_log. repeat split; try assumption. congruence.
  - destruct (Hjr eq_refl) as [j ->].
    pose proof (ensure_not_joined st E) as H. cbv zeta in H.
    destruct (_ensureSubscriptionChannel cfg st) as [st1 p]. cbn [fst snd] in H.
    destruct H as (-> & Hs & Hh & Hj & _ & _ & Hc & _ & _ & _ & Hd).
    exists (channels_created st). eexists.
    unfold subscriptionFn_channel. cbn [mark_joined channel]. rewrite Hc.
    split; [reflexivity|].
    rewrite doc_pushes_log.
    change (doc_pushes (mark_joined (channels_created st) st1)) with (doc_pushes st1).
    rewrite Hd. repeat split; try assumption; try discriminate.
    unfold channel_joined. cbn [log mark_joined channel joined]. rewrite Hc.
    destruct (decide _) as [_|Hn]; [reflexivity|exfalso; apply Hn; now left].
Qed.

(** *** The replies to a push *)

Lemma reply_error st queryId err :
  subscriptionFn_reply EventEmitter st queryId (ReplyError err)
  = (st, Settled (Rejected (Thrown err))).
Proof. reflexivity. Qed.

(** An [ok] with a subscription id records a new emitter, the one that
    the call resolves with. *)
Lemma reply_ok st queryId res sid :
  get_prop res "subscriptionId" = Ok sid ->
  exists st',
    subscriptionFn_reply EventEmitter st queryId (ReplyOk res)
      = (st', Settled (Resolved (VRef (length (heap st))))) /\
    subscriptions st' = obj_set queryId (length (heap st)) (subscriptions st) /\
    heap st' = (heap st ++
                [{| members := obj_set "subscriptionId" sid
                                 (EventEmitter (length (heap st)));
                    listeners := []; emitted := [] |}])%list /\
    joined st' = joined st /\ channel st' = channel st /\
    effects st' = effects st.
Proof.
  intros Hsid. unfold subscriptionFn_reply. cbn [subscriptions].
  rewrite obj_get_set_eq, Hsid.
  eexists. split.
  - f_equal. unfold write_member, with_heap. cbn [subscriptions].
    now rewrite obj_get_set_eq.
  - unfold write_member, with_heap. cbn [subscriptions heap joined channel effects].
    repeat split.
    rewrite alter_app_r_alt by lia. now rewrite Nat.sub_diag.
Qed.

Lemma NoDup_values_set {A} q (r : A) o :
  NoDup (map snd o) -> r ∉ map snd o -> NoDup (map snd (obj_set q r o)).
Proof.
  induction o as [|[q' r'] o IH]; simpl; intros Hnd Hr.
  - apply NoDup_singleton.
  - apply NoDup_cons in Hnd as [Hr' Hnd].
    apply not_elem_of_cons in Hr as [Hne Hr].
    destruct (String.eqb q q'); simpl; apply NoDup_cons; split; auto.
    intros Hin. apply list_elem_of_In, in_map_iff in Hin as ([q0 r0] & Heq & Hin).
    simpl in Heq. subst r0.
    apply In_obj_set in Hin as [[= _ Heq]|Hin]; [congruence|].
    apply Hr'. apply list_elem_of_In. change r' with (snd (q0, r')).
    now apply in_map.
Qed.

Lemma NoDup_keys_set {A} q (r : A) o :
  NoDup (obj_keys o) -> NoDup (obj_keys (obj_set q r o)).
Proof.
  intros Hnd. rewrite obj_keys_set. destruct (obj_get q o) eqn:E; [assumption|].
  apply NoDup_app. repeat split; [assumption| |apply NoDup_singleton].
  intros x Hx Hq. apply list_elem_of_singleton in Hq as ->.
  apply obj_get_None_keys in E. apply E. now apply list_elem_of_In.
Qed.

Lemma wf_reply st queryId r :
  wf st -> wf (fst (subscriptionFn_reply EventEmitter st queryId r)).
Proof.
  intros (H1 & H2 & H3 & H4). destruct r as [res|err]; [|repeat split; assumption].
  assert (Hwf1 : forall h',
    length h' = S (length (heap st)) ->
    wf {| subscriptions := obj_set queryId (length (heap st)) (subscriptions st);
          heap := h'; socket := socket st; channel := channel st;
          joined := joined st; timers := timers st; effects := effects st |}).
  { intros h' Hlen. unfold wf. cbn [subscriptions heap joined]. rewrite Hlen.
    repeat split.
    - intros q r Hin. apply In_obj_set in Hin as [[= _ ->]|Hin]; [lia|].
      specialize (H1 _ _ Hin). lia.
    - now apply NoDup_keys_set.
    - apply NoDup_values_set; [assumption|].
      intros Hin. apply list_elem_of_In, in_map_iff in Hin as ([q0 r0] & Heq & Hin).
      specialize (H1 _ _ Hin). simpl in Heq. lia.
    - exact H4. }
  unfold subscriptionFn_reply. cbn [subscriptions].
  rewrite obj_get_set_eq.
  destruct (get_prop res "subscriptionId"); cbn [fst].
  - unfold write_member, with_heap. cbn [subscriptions heap socket channel joined timers effects].
    apply Hwf1. rewrite length_alter, length_app. simpl. lia.
  - apply Hwf1. rewrite length_app. simpl. lia.
Qed.

(** *** Whole calls *)

Variable builder : list (string * value) -> result string.

(** The first call for a query, acknowledged by the server. *)
Lemma subscribe_fresh st args query jr res sid :
  builder args = Ok query ->
  lookup_subscription st (_getQueryId query) = None ->
  (channel_joined st = None -> exists j, jr = ReplyOk j) ->
  get_prop res "subscriptionId" = Ok sid ->
  exists c st',
    subscribe _getQueryId EventEmitter cfg builder st args jr (ReplyOk res)
      = (st', Settled (Resolved (VRef (length (heap st))))) /\
    subscriptions st'
      = obj_set (_getQueryId query) (length (heap st)) (subscriptions st) /\
    heap st' = (heap st ++
                [{| members := obj_set "subscriptionId" sid
                                 (EventEmitter (length (heap st)));
                    listeners := []; emitted := [] |}])%list /\
    channel_joined st' = Some c /\
    doc_pushes st' = (doc_pushes st ++ [(c, query)])%list /\
    (forall c0, channel_joined st = Some c0 -> c = c0).
Proof.
  intros Hb Hnone Hjr Hsid. unfold subscribe, subscriptionFn. rewrite Hb, Hnone.
  pose proof (subscribe_reaches_push st query (_getQueryId query) jr Hjr) as H.
  destruct (_ensureSubscriptionChannel cfg st) as [st1 p].
  destruct H as (c & st2 & -> & Hs & Hh & Hj & Hd & Hsame).
  destruct (reply_ok st2 (_getQueryId query) res sid Hsid)
    as (st' & -> & Hs' & Hh' & Hj' & Hc' & He').
  exists c, st'. rewrite Hs', Hh', Hs, Hh. repeat split; try assumption.
  - unfold channel_joined in *. now rewrite Hc', Hj'.
  - unfold doc_pushes in *. now rewrite He'.
Qed.

(** The first call for a query, rejected by the server. *)
Lemma subscribe_rejected st args query jr err :
  builder args = Ok query ->
  lookup_subscription st (_getQueryId query) = None ->
  (channel_joined st = None -> exists j, jr = ReplyOk j) ->
  exists st',
    subscribe _getQueryId EventEmitter cfg builder st args jr (ReplyError err)
      = (st', Settled (Rejected (Thrown err))) /\
    subscriptions st' = subscriptions st /\ heap st' = heap st.
Proof.
  intros Hb Hnone Hjr. unfold subscribe, subscriptionFn. rewrite Hb, Hnone.
  pose proof (subscribe_reaches_push st query (_getQueryId query) jr Hjr) as H.
  destruct (_ensureSubscriptionChannel cfg st) as [st1 p].
  destruct H as (c & st2 & -> & Hs & Hh & _).
  exists st2. rewrite reply_error. auto.
Qed.

(** A call for a query that has a record takes the short way. *)
Lemma subscribe_again st args query r jr pr :
  builder args = Ok query ->
  obj_get (_getQueryId query) (subscriptions st) = Some r ->
  subscribe _getQueryId EventEmitter cfg builder st args jr pr
  = (st, Settled (Resolved (read_member st r "emitter"))).
Proof.
  intros Hb Hr. unfold subscribe, subscriptionFn.
  now rewrite Hb, (lookup_record st _ r Hr).
Qed.

(** *** The invariant *)

Lemma wf_init : wf init_state.
Proof.
  unfold wf, init_state; simpl. repeat split; try apply NoDup_nil_2.
  - intros q r [].
  - intros c Hc. inversion Hc.
Qed.

Lemma wf_log es st : wf st -> wf (log es st).
Proof.
  intros (H1 & H2 & H3 & H4). repeat split; try assumption.
  intros c Hc. specialize (H4 c Hc). cbn [log joined] in *.
  unfold channels_created in *. rewrite count_log. lia.
Qed.

Lemma wf_channel st p query queryId jr :
  wf st ->
  (forall c, p = ChannelPending c -> c < channels_created st) ->
  wf (fst (subscriptionFn_channel st p query queryId jr)).
Proof.
  intros Hwf Hp. destruct p as [c|c]; cbn [subscriptionFn_channel push_doc fst].
  - now apply wf_log.
  - destruct jr as [j|err]; [|exact Hwf].
    assert (Hm : wf (mark_joined c st)).
    { destruct Hwf as (H1 & H2 & H3 & H4). repeat split; try assumption.
      intros c' Hc'. cbn [mark_joined joined] in Hc'.
      apply elem_of_cons in Hc' as [->|Hc']; [now apply Hp | now apply H4]. }
    destruct (channel (mark_joined c st)); cbn [fst]; [now apply wf_log | exact Hm].
Qed.

Lemma wf_subscribe st args jr pr :
  wf st -> wf (fst (subscribe _getQueryId EventEmitter cfg builder st args jr pr)).
Proof.
  intros Hwf. unfold subscribe, subscriptionFn.
  destruct (builder args) as [query|e]; [|exact Hwf].
  destruct (lookup_subscription _ _) as [[r|]|]; [exact Hwf|exact Hwf|].
  pose proof (wf_ensure st Hwf) as Hwf1.
  assert (Hp : forall c, snd (_ensureSubscriptionChannel cfg st) = ChannelPending c ->
                         c < channels_created (fst (_ensureSubscriptionChannel cfg st))).
  { intros c. destruct (channel_joined st) as [c0|] eqn:E.
    - rewrite (ensure_joined st c0 E). discriminate.
    - destruct (ensure_not_joined st E) as (-> & _ & _ & _ & _ & _ & _ & _ & -> & _).
      intros [= <-]. lia. }
  destruct (_ensureSubscriptionChannel cfg st) as [st1 p]. cbn [fst snd] in *.
  pose proof (wf_channel st1 p query (_getQueryId query) jr Hwf1 Hp) as Hwf2.
  destruct (subscriptionFn_channel st1 p query (_getQueryId query) jr) as [st2 ph].
  cbn [fst] in Hwf2. destruct ph; try exact Hwf2.
  now apply wf_reply.
Qed.

Lemma wf_subscriptionFn st args :
  wf st -> wf (fst (subscriptionFn _getQueryId cfg builder st args)).
Proof.
  intros Hwf. unfold subscriptionFn.
  destruct (builder args) as [query|e]; [|exact Hwf].
  destruct (lookup_subscription _ _) as [[r|]|]; [exact Hwf|exact Hwf|].
  pose proof (wf_ensure st Hwf).
  now destruct (_ensureSubscriptionChannel cfg st).
Qed.

End Channel.

(** The invariant looks at the records, at the number of emitters, at
    the joined channels and at the trace only. *)
Lemma wf_frame st st' :
  subscriptions st' = subscriptions st -> length (heap st') = length (heap st) ->
  joined st' = joined st -> effects st' = effects st ->
  wf st -> wf st'.
Proof.
  intros Hs Hh Hj He (H1 & H2 & H3 & H4). unfold wf, channels_created, count in *.
  rewrite Hs, Hh, Hj, He. repeat split; assumption.
Qed.

Lemma wf_record r name v st : wf st -> wf (record_event r name v st).
Proof. apply wf_frame; try reflexivity. apply length_heap_record. Qed.

Lemma wf_listen r name st : wf st -> wf (listen r name st).
Proof.
  apply wf_frame; try reflexivity. unfold listen. simpl. apply length_alter.
Qed.

Lemma wf_onMessage st event payload : wf st -> wf (fst (onMessage st event payload)).
Proof.
  intros Hwf. unfold onMessage.
  destruct (String.eqb event "subscription:data"); [|exact Hwf].
  destruct (find_queryId _ _ _) as [[[|a q]|]|e]; try exact Hwf.
  destruct (obj_get _ _); [|exact Hwf].
  destruct (bind _ _); [|exact Hwf].
  rewrite emit_data. now apply wf_record.
Qed.

Lemma wf_onConnError st err : wf st -> wf (fst (onConnError st err)).
Proof.
  intros Hwf. unfold onConnError.
  destruct (broadcast_error_frame err (obj_keys (subscriptions st)) st)
    as (Hs & _ & _ & Hj & _ & He & Hh).
  destruct (broadcast_error _ _ _) as [st1 [u|e]]; cbn [fst] in *.
  - apply wf_log. revert Hwf. apply wf_frame; assumption.
  - revert Hwf. apply wf_frame; assumption.
Qed.

Lemma wf_fire_timer st : wf st -> wf (fire_timer st).
Proof.
  intros Hwf. unfold fire_timer.
  destruct (timers st) as [|[d []] rest]; [exact Hwf|].
  destruct (socket st); [|exact Hwf].
  apply wf_log. destruct Hwf as (H1 & H2 & H3 & H4). repeat split; assumption.
Qed.

Lemma wf_doRequest cfg st query answer :
  wf st -> wf (fst (_doRequest cfg st query answer)).
Proof.
  intros Hwf. unfold _doRequest. destruct answer as [res|e]; [|now apply wf_log].
  destruct (get_prop (data res) "data"), (get_prop (data res) "errors");
    try now apply wf_log.
  destruct (Z.eqb (status res) 200); now apply wf_log.
Qed.

(** The invariant holds in every state of a running client. *)
Lemma reachable_wf _getQueryId EventEmitter cfg st :
  reachable _getQueryId EventEmitter cfg st -> wf st.
Proof.
  induction 1.
  - apply wf_init.
  - now apply wf_subscriptionFn.
  - now apply wf_channel.
  - now apply wf_reply.
  - now apply wf_subscribe.
  - now apply wf_onMessage.
  - now apply wf_onConnError.
  - now apply wf_listen.
  - now apply wf_fire_timer.
  - now apply wf_doRequest.
Qed.

(** *** Attaching the generated functions *)

Lemma install_fold k builders keys : forall fns key,
  (forall x, x ∈ keys -> is_Some (obj_get x builders)) ->
  obj_get key
    (fold_left
       (fun this x =>
          match obj_get x builders with
          | Some d => obj_set x (attached k d) this
          | None => this
          end) keys fns)
  = if decide (key ∈ keys) then attached k <$> obj_get key builders
    else obj_get key fns.
Proof.
  induction keys as [|x keys IH]; intros fns key Hkeys; cbn [fold_left].
  - destruct (decide (key ∈ [])) as [Hin|_]; [inversion Hin|reflexivity].
  - destruct (Hkeys x) as [d Hd]; [now left|]. rewrite Hd.
    rewrite IH by (intros y Hy; apply Hkeys; now right).
    destruct (decide (key ∈ keys)) as [Hin|Hnin].
    + destruct (decide (key ∈ x :: keys)) as [_|Hn]; [reflexivity|].
      exfalso. apply Hn. now right.
    + destruct (String.eqb_spec x key) as [->|Hne].
      * rewrite obj_get_set_eq, Hd.
        destruct (decide (key ∈ key :: keys)) as [_|Hn]; [reflexivity|].
        exfalso. apply Hn. now left.
      * rewrite obj_get_set_ne by assumption.
        destruct (decide (key ∈ x :: keys)) as [Hin|_]; [|reflexivity].
        apply elem_of_cons in Hin as [->|Hin]; contradiction.
Qed.

Lemma install_get k builders fns key :
  obj_get key (install k builders fns)
  = match obj_get key builders with
    | Some d => Some (attached k d)
    | None => obj_get key fns
    end.
Proof.
  transitivity (if decide (key ∈ obj_keys builders)
                then attached k <$> obj_get key builders else obj_get key fns).
  { apply (install_fold k builders (obj_keys builders) fns key).
    intros x Hx. apply obj_get_key. now apply list_elem_of_In. }
  destruct (decide (key ∈ obj_keys builders)) as [Hin|Hnin].
  - apply list_elem_of_In in Hin.
    destruct (obj_get_key key builders Hin) as [d ->]. reflexivity.
  - rewrite list_elem_of_In in Hnin.
    apply obj_get_None_keys in Hnin. now rewrite Hnin.
Qed.

End ClientFacts.

(** ** The claims *)

Import JS Engine Client Demo JSFacts EngineFacts ClientFacts.

(** C7, what the code does at the claim's input.  With status 200 and
    a body that is [null], the call returns no data: it rejects with a
    [TypeError], raised where the body is read for the [debug] call. *)
Lemma doRequest_status_200_without_body :
  let res := {| status := 200; data := VNull |} in
  status res = 200%Z /\
  (forall v, snd (_doRequest demo_config init_state "{blocks}" (AxiosResolved res))
             <> Resolved v) /\
  exists m, snd (_doRequest demo_config init_state "{blocks}" (AxiosResolved res))
            = Rejected (TypeError m).
Proof. cbv zeta. split; [reflexivity|]. split; [discriminate|]. eexists. reflexivity. Qed.

(** C7, amended.  For a response that carries a body ([res.data] is
    neither [undefined] nor [null]), [_doRequest] resolves with a value
    exactly when the status is 200, and that value is [res.data.data];
    with any other status it rejects with the error
    [doRequest.error: <status>]; and when axios itself rejects, the call
    rejects with that error.  In no case other than status 200 is a data
    value returned. *)
Theorem doRequest_returns_data_iff_200 cfg st query res :
  is_nullish (data res) = false ->
  (forall v, snd (_doRequest cfg st query (AxiosResolved res)) = Resolved v <->
             status res = 200%Z /\ get_prop (data res) "data" = Ok v) /\
  (status res <> 200%Z ->
   snd (_doRequest cfg st query (AxiosResolved res))
   = Rejected (Error ("doRequest.error: " ++ pretty (status res)))) /\
  (forall e, snd (_doRequest cfg st query (AxiosRejected e)) = Rejected e).
Proof.
  intros Hbody.
  destruct (get_prop_not_nullish (data res) "data" Hbody) as [d Hd].
  destruct (get_prop_not_nullish (data res) "errors" Hbody) as [es Hes].
  unfold _doRequest. rewrite Hd, Hes.
  destruct (Z.eqb_spec (status res) 200) as [H200|Hne]; cbn [snd];
    (split; [intros v; split | split; [|reflexivity]]).
  - intros [= <-]. auto.
  - intros [_ [= <-]]. reflexivity.
  - contradiction.
  - discriminate.
  - intros [H _]. contradiction.
  - reflexivity.
Qed.

Lemma doRequest_returns_data_iff_200_witness :
  snd (_doRequest demo_config init_state "{blocks}"
         (AxiosResolved {| status := 200;
                           data := VObject [("data", VStr "payload")] |}))
  = Resolved (VStr "payload") /\
  snd (_doRequest demo_config init_state "{blocks}"
         (AxiosResolved {| status := 500; data := VObject [] |}))
  = Rejected (Error "doRequest.error: 500").
Proof.
  split.
  - destruct (doRequest_returns_data_iff_200 demo_config init_state "{blocks}"
                {| status := 200; data := VObject [("data", VStr "payload")] |}
                eq_refl) as [H _].
    apply H. split; reflexivity.
  - destruct (doRequest_returns_data_iff_200 demo_config init_state "{blocks}"
                {| status := 500; data := VObject [] |} eq_refl) as (_ & H & _).
    apply H. discriminate.
Defined.

(** C10.  [doRawQuery] parses the query and prints the result.  When
    [parse] throws, or [print] does, [doRawQuery] throws an [Error] whose
    message is [BaseClient: invalid raw query] followed by the message
    of what was thrown (its [toString()] when the message is empty), and
    the state, the trace of network requests included, is as before.
    Otherwise it posts exactly the printed text, once, and returns the
    promise of that request. *)
Theorem doRawQuery_normalizes_or_throws
    (document : Type) (parse : string -> error_object + document)
    (print : document -> error_object + string) cfg st query answer :
  (forall err, parse query = inl err \/
               (exists ast, parse query = inr ast /\ print ast = inl err) ->
     doRawQuery document parse print cfg st query answer
     = (st, Threw (Error ("BaseClient: invalid raw query " ++
                          match message err with
                          | EmptyString => toString err
                          | m => m
                          end))) /\
     String.prefix "BaseClient: invalid raw query"
       ("BaseClient: invalid raw query " ++
        match message err with
        | EmptyString => toString err
        | m => m
        end) = true) /\
  (forall ast text, parse query = inr ast -> print ast = inr text ->
     doRawQuery document parse print cfg st query answer
     = (fst (_doRequest cfg st text answer),
        Returned (snd (_doRequest cfg st text answer))) /\
     effects (fst (doRawQuery document parse print cfg st query answer))
     = (effects st ++
        [AxiosPost (httpBaseUrl cfg ++ "/" ++ dataSource cfg) text])%list).
Proof.
  unfold doRawQuery, clean_query, error_text. split.
  - intros err [->|(ast & -> & ->)]; split; reflexivity.
  - intros ast text -> ->.
    destruct (_doRequest cfg st text answer) as [st' o] eqn:E.
    split; [reflexivity|].
    cbn [fst]. change st' with (fst (st', o)). rewrite <- E.
    apply doRequest_effects.
Qed.

Lemma doRawQuery_normalizes_or_throws_witness :
  let parse := fun q : string =>
    if String.eqb q "{" then
      @inl error_object string
        {| message := "Syntax Error: Expected Name, found <EOF>";
           toString := "GraphQLError: Syntax Error" |}
    else inr q in
  let print := fun ast : string =>
    if String.eqb ast "boom" then
      @inl error_object string {| message := EmptyString; toString := "Error" |}
    else inr ("{ " ++ ast ++ " }") in
  doRawQuery string parse print demo_config init_state "{" (AxiosRejected (Error "offline"))
  = (init_state,
     Threw (Error "BaseClient: invalid raw query Syntax Error: Expected Name, found <EOF>")) /\
  doRawQuery string parse print demo_config init_state "boom" (AxiosRejected (Error "offline"))
  = (init_state, Threw (Error "BaseClient: invalid raw query Error")) /\
  effects (fst (doRawQuery string parse print demo_config init_state "blocks"
                  (AxiosRejected (Error "offline"))))
  = [AxiosPost "https://ocap.arcblock.io/api/eth" "{ blocks }"].
Proof.
  intros parse print. split; [|split].
  - destruct (doRawQuery_normalizes_or_throws string parse print demo_config
                init_state "{" (AxiosRejected (Error "offline"))) as [H _].
    apply (H {| message := "Syntax Error: Expected Name, found <EOF>";
                toString := "GraphQLError: Syntax Error" |}).
    left. reflexivity.
  - destruct (doRawQuery_normalizes_or_throws string parse print demo_config
                init_state "boom" (AxiosRejected (Error "offline"))) as [H _].
    apply (H {| message := EmptyString; toString := "Error" |}).
    right. exists "boom". split; reflexivity.
  - destruct (doRawQuery_normalizes_or_throws string parse print demo_config
                init_state "blocks" (AxiosRejected (Error "offline"))) as [_ H].
    apply (H "blocks" "{ blocks }"); reflexivity.
Defined.

(** C5.  An inbound [subscription:data] message whose
    [payload.subscriptionId] is the id of no record leaves the whole
    state as it was (no event on any emitter, the same records) and the
    handler does not throw. *)
Theorem onMessage_unknown_subscription st payload sid :
  get_prop payload "subscriptionId" = Ok sid ->
  (forall q r, In (q, r) (subscriptions st) ->
               strict_eq (read_member st r "subscriptionId") sid = false) ->
  onMessage st "subscription:data" payload = (st, Ok tt).
Proof.
  intros Hsid Hno. unfold onMessage. cbn [String.eqb Ascii.eqb Bool.eqb].
  rewrite (find_queryId_none st payload sid _ Hsid Hno); [reflexivity|auto].
Qed.

Lemma onMessage_unknown_subscription_witness :
  let st := fst (subscribe fingerprint plain_emitter demo_config demo_builder
                   init_state [] (ReplyOk VNull) (ok_reply "s1")) in
  onMessage st "subscription:data"
    (VObject [("subscriptionId", VStr "s2");
              ("result", VObject [("data", VNum 7)])])
  = (st, Ok tt).
Proof.
  apply (onMessage_unknown_subscription _ _ (VStr "s2")); [reflexivity|].
  intros q r [[= <- <-]|[]]. reflexivity.
Defined.

(** C3, as the code has it.  In a state that satisfies the invariant, as
    every state of a running client does, the handler of a connection
    error does what the claim says when the emitter of every record has
    a listener for [error]: each of them gets one [error] event that
    carries the error, no other emitter gets one, one timer of 1000 ms
    is set, and that timer, when it fires, calls [connect] on the socket
    that [this.socket] holds.  When the emitter of some record has no
    listener for [error], the handler throws: no timer is set, so the
    socket is not reconnected, and no emitter without a listener has
    been given the error. *)
Theorem onConnError_broadcast_needs_listeners st err :
  wf st ->
  ((forall q r, In (q, r) (subscriptions st) -> listens st r "error" = true) ->
   snd (onConnError st err) = Ok tt /\
   subscriptions (fst (onConnError st err)) = subscriptions st /\
   (forall q r, In (q, r) (subscriptions st) ->
      events (fst (onConnError st err)) r = (events st r ++ [("error", err)])%list) /\
   (forall r, ~ In r (map snd (subscriptions st)) ->
      events (fst (onConnError st err)) r = events st r) /\
   timers (fst (onConnError st err))
   = (timers st ++ [(1000%Z, ReconnectSocket)])%list /\
   effects (fst (onConnError st err))
   = (effects st ++ [SetTimeout 1000 ReconnectSocket])%list /\
   (forall s, socket st = Some s -> timers st = [] ->
      timers (fire_timer (fst (onConnError st err))) = [] /\
      effects (fire_timer (fst (onConnError st err)))
      = (effects st ++ [SetTimeout 1000 ReconnectSocket; SocketConnect s])%list)) /\
  ((exists q r, In (q, r) (subscriptions st) /\ listens st r "error" = false) ->
   (exists e, snd (onConnError st err) = Err e) /\
   subscriptions (fst (onConnError st err)) = subscriptions st /\
   timers (fst (onConnError st err)) = timers st /\
   effects (fst (onConnError st err)) = effects st /\
   (forall r, listens st r "error" = false ->
      events (fst (onConnError st err)) r = events st r)).
Proof.
  intros (H1 & H2 & H3 & H4). split.
  - intros Hall.
    assert (Hb : broadcast_error (obj_keys (subscriptions st)) err st
                 = (emit_all "error" err (map snd (subscriptions st)) st, Ok tt)).
    { rewrite broadcast_error_heard, (omap_obj_get_keys _ H2); [reflexivity|].
      intros q Hq. destruct (obj_get_key _ _ Hq) as [r Hr].
      exists r. split; [exact Hr|]. apply (Hall q). now apply obj_get_In. }
    unfold onConnError. rewrite Hb. cbn [fst snd].
    set (refs := map snd (subscriptions st)).
    set (st1 := emit_all "error" err refs st).
    destruct (emit_all_frame "error" err refs st) as (Es & Eso & _ & _ & Et & Ee & _).
    fold st1 in Es, Eso, Et, Ee.
    assert (Hlt : forall x, x ∈ refs -> x < length (heap st)).
    { intros x Hx. apply list_elem_of_In, in_map_iff in Hx as ([q r] & <- & Hin).
      exact (H1 _ _ Hin). }
    assert (Hev : forall r, events (arm_reconnect st1) r
        = (events st r ++ if decide (r ∈ refs) then [("error", err)] else [])%list).
    { intros r. rewrite <- (events_emit_all "error" err refs st r H3 Hlt). reflexivity. }
    split; [reflexivity|]. split; [exact Es|]. split; [|split; [|split; [|split]]].
    + intros q r Hin. rewrite Hev. destruct (decide (r ∈ refs)) as [_|Hn]; [reflexivity|].
      exfalso. apply Hn, list_elem_of_In. change r with (snd (q, r)). now apply in_map.
    + intros r Hr. rewrite Hev. destruct (decide (r ∈ refs)) as [Hin|_].
      * apply list_elem_of_In in Hin. contradiction.
      * apply app_nil_r.
    + cbn [arm_reconnect log timers]. now rewrite Et.
    + cbn [arm_reconnect log effects]. now rewrite Ee.
    + intros s Hs Ht.
      rewrite (fire_after_arm st1 s) by congruence.
      cbn [log timers effects]. rewrite Et, Ee. split; [exact Ht|reflexivity].
  - intros (q & r & Hin & Hl).
    destruct (broadcast_error_unheard err (obj_keys (subscriptions st)) st) as [e He].
    { exists q, r. split; [|split; [|exact Hl]].
      - unfold obj_keys. change q with (fst (q, r)). now apply in_map.
      - now apply In_obj_get. }
    destruct (broadcast_error_frame err (obj_keys (subscriptions st)) st)
      as (Es & _ & _ & _ & Et & Ee & _).
    pose proof (broadcast_error_silent err (obj_keys (subscriptions st)) st) as Hsil.
    unfold onConnError.
    destruct (broadcast_error (obj_keys (subscriptions st)) err st) as [st1 [u|e']];
      cbn [fst snd] in *; [discriminate|].
    split; [eauto|]. split; [exact Es|]. split; [exact Et|]. split; [exact Ee|].
    exact Hsil.
Qed.

Lemma onConnError_broadcast_needs_listeners_witness :
  let st1 := fst (subscribe fingerprint plain_emitter demo_config demo_builder
                    init_state [] (ReplyOk VNull) (ok_reply "s1")) in
  let st2 := fst (subscribe fingerprint plain_emitter demo_config demo_builder
                    st1 [("height", VNum 1)] (ReplyOk VNull) (ok_reply "s2")) in
  let heard := listen 1 "error" (listen 0 "error" st2) in
  let unheard := listen 1 "error" st2 in
  (events (fst (onConnError heard (VStr "closed"))) 0 = [("error", VStr "closed")] /\
   events (fst (onConnError heard (VStr "closed"))) 1 = [("error", VStr "closed")] /\
   effects (fire_timer (fst (onConnError heard (VStr "closed"))))
   = (effects heard ++ [SetTimeout 1000 ReconnectSocket; SocketConnect 0])%list) /\
  ((exists e, snd (onConnError unheard (VStr "closed")) = Err e) /\
   timers (fst (onConnError unheard (VStr "closed"))) = [] /\
   events (fst (onConnError unheard (VStr "closed"))) 0 = [] /\
   listens unheard 1 "error" = true /\
   events (fst (onConnError unheard (VStr "closed"))) 1 = []).
Proof.
  intros st1 st2 heard unheard.
  assert (Hwf2 : wf st2) by (do 2 apply wf_subscribe; apply wf_init).
  assert (Hwf : wf heard) by (do 2 apply wf_listen; exact Hwf2).
  assert (Hwf' : wf unheard) by (apply wf_listen; exact Hwf2).
  split.
  - destruct (onConnError_broadcast_needs_listeners heard (VStr "closed") Hwf)
      as [H _].
    destruct H as (_ & _ & Hev & _ & _ & _ & Hfire).
    { intros q r [[= <- <-]|[[= <- <-]|[]]]; reflexivity. }
    split; [|split].
    + apply (Hev (fingerprint "subscription{newBlock({})}") 0). now left.
    + apply (Hev (fingerprint "subscription{newBlock({height: 1 })}") 1).
      right. now left.
    + apply (Hfire 0); reflexivity.
  - destruct (onConnError_broadcast_needs_listeners unheard (VStr "closed") Hwf')
      as [_ H].
    destruct H as (He & _ & Ht & _ & Hev).
    { exists (fingerprint "subscription{newBlock({})}"), 0.
      split; [now left|reflexivity]. }
    split; [exact He|]. split; [exact Ht|]. split; [apply Hev; reflexivity|].
    split; reflexivity.
Defined.

(** C6.  For a call that got as far as its [doc] push: when the channel
    answers [error] to the push, the call rejects with that error, no
    record and no emitter has been created, the records are those from
    before the call, with none under the query id of the call, and the
    call has issued the one push. *)
Theorem rejected_push_creates_no_record
    (_getQueryId : string -> string) (EventEmitter : nat -> list (string * value))
    cfg builder st args st1 p query queryId jr st2 c query' queryId' err :
  subscriptionFn _getQueryId cfg builder st args
    = (st1, AwaitChannel p query queryId) ->
  subscriptionFn_channel st1 p query queryId jr
    = (st2, AwaitReply c query' queryId') ->
  subscribe _getQueryId EventEmitter cfg builder st args jr (ReplyError err)
    = (st2, Settled (Rejected (Thrown err))) /\
  subscriptions st2 = subscriptions st /\ heap st2 = heap st /\
  lookup_subscription st2 queryId = None /\
  doc_pushes st2 = (doc_pushes st ++ [(c, query)])%list.
Proof.
  intros H1 H2. split.
  { unfold subscribe. rewrite H1, H2. apply reply_error. }
  unfold subscriptionFn in H1.
  destruct (builder args) as [q|e]; [|discriminate].
  destruct (lookup_subscription st (_getQueryId q)) as [[r|]|] eqn:Hl;
    try discriminate.
  assert (Hens : subscriptions st1 = subscriptions st /\ heap st1 = heap st /\
                 doc_pushes st1 = doc_pushes st /\ queryId = _getQueryId q).
  { destruct (channel_joined st) as [c0|] eqn:E.
    - rewrite (ensure_joined cfg st c0 E) in H1. injection H1 as <- _ _ <-. auto.
    - destruct (ensure_not_joined cfg st E)
        as (_ & Hs & Hh & _ & _ & _ & _ & _ & _ & _ & Hd).
      destruct (_ensureSubscriptionChannel cfg st) as [st0 p0]. cbn [fst] in *.
      injection H1 as <- _ _ <-. auto. }
  destruct Hens as (Hs & Hh & Hd & ->).
  assert (Hch : subscriptions st2 = subscriptions st1 /\ heap st2 = heap st1 /\
                doc_pushes st2 = (doc_pushes st1 ++ [(c, query)])%list).
  { unfold subscriptionFn_channel, push_doc in H2. destruct p as [c0|c0].
    - injection H2 as <- <- _ _. rewrite doc_pushes_log. auto.
    - destruct jr as [j|e]; [|discriminate].
      destruct (channel (mark_joined c0 st1)) as [c1|]; [|discriminate].
      injection H2 as <- <- _ _. rewrite doc_pushes_log. auto. }
  destruct Hch as (Hs' & Hh' & Hd').
  split; [congruence|]. split; [congruence|]. split; [|congruence].
  rewrite <- Hl. apply lookup_same. congruence.
Qed.

Lemma rejected_push_creates_no_record_witness :
  let st1 := fst (_ensureSubscriptionChannel demo_config init_state) in
  let st2 := log [ChannelPush 0 "doc" "subscription{newBlock({})}"]
                 (mark_joined 0 st1) in
  subscribe fingerprint plain_emitter demo_config demo_builder init_state []
    (ReplyOk VNull) (ReplyError (VStr "unauthorized"))
    = (st2, Settled (Rejected (Thrown (VStr "unauthorized")))) /\
  subscriptions st2 = [] /\ heap st2 = [] /\
  doc_pushes st2 = [(0, "subscription{newBlock({})}")].
Proof.
  intros st1 st2.
  destruct (rejected_push_creates_no_record fingerprint plain_emitter demo_config
              demo_builder init_state [] st1 (ChannelPending 0)
              "subscription{newBlock({})}"
              (fingerprint "subscription{newBlock({})}") (ReplyOk VNull) st2 0
              "subscription{newBlock({})}"
              (fingerprint "subscription{newBlock({})}") (VStr "unauthorized"))
    as (H1 & H2 & H3 & _ & H5); [reflexivity|reflexivity|].
  split; [exact H1|]. split; [exact H2|]. split; [exact H3|exact H5].
Defined.




(** C1, as the code has it.  After a first, acknowledged call for a
    query, a second call with the same arguments issues no further push
    and changes nothing, so one [doc] push serves both calls; but it
    resolves with the [emitter] member of the recorded emitter as its
    implementation provides it ([undefined] when it has none), while the
    first call resolved with the recorded emitter itself. *)
Theorem resubscribe_resolves_with_emitter_member
    (_getQueryId : string -> string) (EventEmitter : nat -> list (string * value))
    cfg builder st args query jr1 jr2 res pr2 sid :
  builder args = Ok query ->
  lookup_subscription st (_getQueryId query) = None ->
  (channel_joined st = None -> exists j, jr1 = ReplyOk j) ->
  get_prop res "subscriptionId" = Ok sid ->
  exists c st1,
    subscribe _getQueryId EventEmitter cfg builder st args jr1 (ReplyOk res)
      = (st1, Settled (Resolved (VRef (length (heap st))))) /\
    subscribe _getQueryId EventEmitter cfg builder st1 args jr2 pr2
      = (st1, Settled (Resolved
                (default VUndefined
                   (obj_get "emitter" (EventEmitter (length (heap st))))))) /\
    doc_pushes st1 = (doc_pushes st ++ [(c, query)])%list.
Proof.
  intros Hb Hnone Hjr Hsid.
  destruct (subscribe_fresh _getQueryId EventEmitter cfg builder
              st args query jr1 res sid Hb Hnone Hjr Hsid)
    as (c & st1 & E1 & Hsub & Hheap & _ & Hd & _).
  exists c, st1. repeat split; try assumption.
  rewrite (subscribe_again _getQueryId EventEmitter cfg builder st1 args query
             (length (heap st))); [|assumption|rewrite Hsub; apply obj_get_set_eq].
  do 3 f_equal. unfold read_member.
  rewrite Hheap, list_lookup_middle by reflexivity. cbn [members].
  now rewrite obj_get_set_ne.
Qed.

Lemma resubscribe_resolves_with_emitter_member_witness :
  exists c st1,
    subscribe fingerprint plain_emitter demo_config demo_builder init_state []
      (ReplyOk VNull) (ok_reply "s1")
      = (st1, Settled (Resolved (VRef 0))) /\
    subscribe fingerprint plain_emitter demo_config demo_builder st1 []
      (ReplyOk VNull) (ok_reply "s2")
      = (st1, Settled (Resolved VUndefined)) /\
    doc_pushes st1 = [(c, "subscription{newBlock({})}")].
Proof.
  apply (resubscribe_resolves_with_emitter_member fingerprint plain_emitter
           demo_config demo_builder init_state [] "subscription{newBlock({})}"
           (ReplyOk VNull) (ReplyOk VNull)
           (VObject [("subscriptionId", VStr "s1")]) (ok_reply "s2") (VStr "s1")).
  - reflexivity.
  - reflexivity.
  - intros _. exists VNull. reflexivity.
  - reflexivity.
Defined.

(** C9, what the code does at the claim's input.  Two calls made before
    the join of the first is acknowledged create two sockets and issue
    two joins. *)
Lemma concurrent_subscribes_open_two_sockets :
  let st := concurrent_calls fingerprint demo_config demo_builder [[]; []]
              init_state in
  sockets_created st = 2 /\ joins_issued st = 2 /\
  ~ (sockets_created st <= 1 /\ joins_issued st <= 1).
Proof.
  cbv zeta. split; [reflexivity|]. split; [reflexivity|].
  intros [H _]. vm_compute in H. lia.
Qed.

(** C9, amended.  While no channel is joined, every call whose query id
    [this.subscriptions[queryId]] does not find creates a socket of its
    own and issues a join of its own: after n such calls there are n more sockets and n more
    joins, and still no joined channel.  A call reuses the channel,
    creating no socket and issuing no join, only when it starts with the
    channel of the client joined. *)
Theorem concurrent_subscribes_each_connect
    (_getQueryId : string -> string) cfg builder st argss :
  (wf st -> channel_joined st = None ->
   (forall args, In args argss ->
      exists query, builder args = Ok query /\
                    lookup_subscription st (_getQueryId query) = None) ->
   sockets_created (concurrent_calls _getQueryId cfg builder argss st)
     = sockets_created st + length argss /\
   joins_issued (concurrent_calls _getQueryId cfg builder argss st)
     = joins_issued st + length argss /\
   channel_joined (concurrent_calls _getQueryId cfg builder argss st) = None) /\
  (forall c args query,
     channel_joined st = Some c -> builder args = Ok query ->
     lookup_subscription st (_getQueryId query) = None ->
     subscriptionFn _getQueryId cfg builder st args
     = (st, AwaitChannel (ChannelResolved c) query (_getQueryId query))).
Proof.
  split.
  - revert st. induction argss as [|args argss IH]; intros st Hwf Hnj Hargs.
    + simpl. repeat split; auto; lia.
    + destruct (Hargs args (or_introl eq_refl)) as (query & Hb & Hnone).
      change (concurrent_calls _getQueryId cfg builder (args :: argss) st)
        with (concurrent_calls _getQueryId cfg builder argss
                (fst (subscriptionFn _getQueryId cfg builder st args))).
      assert (Hcall : fst (subscriptionFn _getQueryId cfg builder st args)
                      = fst (_ensureSubscriptionChannel cfg st)).
      { unfold subscriptionFn. rewrite Hb, Hnone.
        now destruct (_ensureSubscriptionChannel cfg st). }
      rewrite Hcall.
      destruct (ensure_not_joined cfg st Hnj)
        as (_ & Hs & _ & _ & _ & _ & _ & Hsock & _ & Hjoin & _).
      destruct (IH (fst (_ensureSubscriptionChannel cfg st))) as (H1 & H2 & H3).
      * now apply wf_ensure.
      * now apply ensure_still_not_joined.
      * intros a Ha. destruct (Hargs a (or_intror Ha)) as (q & Hq & Hn).
        exists q. now rewrite (lookup_same st _ _ Hs).
      * rewrite H1, H2, Hsock, Hjoin. cbn [length]. repeat split; auto; lia.
  - intros c args query Hj Hb Hnone. unfold subscriptionFn.
    now rewrite Hb, Hnone, (ensure_joined cfg st c Hj).
Qed.

Lemma concurrent_subscribes_each_connect_witness :
  sockets_created
    (concurrent_calls fingerprint demo_config demo_builder
       [[]; [("height", VNum 1)]; []] init_state) = 0 + 3 /\
  joins_issued
    (concurrent_calls fingerprint demo_config demo_builder
       [[]; [("height", VNum 1)]; []] init_state) = 0 + 3 /\
  channel_joined
    (concurrent_calls fingerprint demo_config demo_builder
       [[]; [("height", VNum 1)]; []] init_state) = None.
Proof.
  apply (concurrent_subscribes_each_connect fingerprint demo_config demo_builder
           init_state [[]; [("height", VNum 1)]; []]).
  - apply wf_init.
  - reflexivity.
  - intros args Hin. exists (match demo_builder args with Ok q => q | Err _ => EmptyString end).
    split; reflexivity.
Defined.

(** C2.  On every TypeGraph, cyclic or not, the depth budget of
    [buildOperations] suffices, so generation ends with builders or with
    a [SchemaInconsistency]; in every selection set that it generates, no
    field returns a type that was entered above it on the way from the
    root (the field that would re-enter such a type is left out); and on
    a graph all of whose references resolve it does produce builders. *)
Theorem buildOperations_terminates_and_truncates
    (g : TypeGraph) root excl k :
  (exists r, buildOperations_fuel (S (size g)) g root excl k = Some r /\
             buildOperations g root excl k = r) /\
  (forall ops key d,
     buildOperations g root excl k = Ok ops -> In (key, d) ops ->
     forallb (no_reentry [return_type d; root]) (selection_set d) = true) /\
  (closed g -> is_Some (g !! root) ->
   exists ops, buildOperations g root excl k = Ok ops).
Proof.
  unfold buildOperations.
  destruct (buildOperations_fuel_enough g excl k root) as [r Hr]. rewrite Hr.
  split; [eauto|]. split.
  - intros ops key d -> Hin. revert Hr. unfold buildOperations_fuel.
    destruct (g !! root); [|discriminate].
    intros Hr. eapply build_fields_no_reentry; eauto.
  - intros Hc [T HT]. revert Hr. unfold buildOperations_fuel. rewrite HT.
    assert (Hops : exists ops,
              build_fields (S (size g)) g excl k root (fields T) = Some (Ok ops)).
    { apply build_fields_closed; [assumption | eauto | lia |].
      intros f Hf. exact (Hc _ _ _ HT Hf). }
    destruct Hops as [ops ->]. intros [= <-]. eauto.
Qed.

Lemma buildOperations_terminates_and_truncates_witness :
  exists ops,
    buildOperations user_graph "RootQueryType" hide_password Query = Ok ops /\
    forall key d, In (key, d) ops ->
      forallb (no_reentry [return_type d; "RootQueryType"]) (selection_set d) = true.
Proof.
  destruct (buildOperations_terminates_and_truncates
              user_graph "RootQueryType" hide_password Query) as (_ & Hcut & Hok).
  destruct Hok as [ops Hops].
  - apply closedb_closed. vm_compute. reflexivity.
  - vm_compute. eauto.
  - exists ops. split; [exact Hops|]. intros key d. apply Hcut. exact Hops.
Defined.

(** The builder of the self-referential schema: [friends] and the
    [author] of a post would re-enter [User] and are left out, and so is
    the excluded [password]. *)
Example user_graph_selection :
  match buildOperations user_graph "RootQueryType" hide_password Query with
  | Ok [(key, d)] =>
      key = "getUser" /\
      selection_set d
      = [Sel "id" "ID" []; Sel "name" "String" [];
         Sel "posts" "Post" [Sel "title" "String" []]] /\
      build d [("id", VStr "42")]
      = Ok ("{getUser(id: " ++ quote ++ "42" ++ quote ++ " ){id name posts{title } }}") /\
      build d [] = Err (MissingArgument "id")
  | _ => False
  end.
Proof. vm_compute. repeat split. Qed.

(** Generation of the functions of a kind fails as [buildOperations]
    does, and in no other way. *)
Lemma generateFns_unfold ignore k sch fns :
  generateFns ignore k sch fns =
  match read_schema (root_type k) sch fns with
  | None => Ok fns
  | Some rootName =>
      match buildOperations (types sch) rootName (ignoreFields ignore fns) k with
      | Ok builders => Ok (install k builders fns)
      | Err e => Err e
      end
  end.
Proof. destruct k; reflexivity. Qed.











(** ** More of the client: construction and the lists of operations *)

Section Registry.

Variable _getSchema : string -> option schema.
Variable _getIgnoreFields : string -> string -> bool.

(** X1.  After [install], a name of the builders holds the function made
    from its builder, tagged with the kind, whatever was there before; a
    name that the builders do not have holds what it held. *)
Theorem install_lookup k builders fns key :
  obj_get key (install k builders fns)
  = match obj_get key builders with
    | Some d => Some (attached k d)
    | None => obj_get key fns
    end.
Proof. apply install_get. Qed.

Lemma generateFns_lookup k sch fns fns' key fn :
  generateFns _getIgnoreFields k sch fns = Ok fns' ->
  obj_get key fns' = Some fn ->
  fn_type fn = k \/ obj_get key fns = Some fn.
Proof.
  rewrite generateFns_unfold.
  destruct (read_schema (root_type k) sch fns) as [r|].
  - destruct (buildOperations _ _ _ _) as [builders|e]; [|discriminate].
    intros [= <-]. rewrite install_get.
    destruct (obj_get key builders); [intros [= <-]; now left | now right].
  - intros [= <-]. now right.
Qed.

(** A flag that [this.config] is read to have set is set in the merged
    configuration. *)
Lemma read_flag_true flag cfg fns : read_flag flag cfg fns = true -> flag cfg = true.
Proof. unfold read_flag. now destruct (shadowed "config" fns). Qed.

Lemma constructor_ok c cl :
  constructor _getSchema _getIgnoreFields c = Ok cl ->
  exists ds sch fns1 fns2,
    u_dataSource c = Some ds /\ ds <> EmptyString /\
    _getSchema ds = Some sch /\
    this_config cl = assign ds c /\
    (if enableQuery (assign ds c)
     then generateFns _getIgnoreFields Query sch [] else Ok []) = Ok fns1 /\
    (if read_flag enableSubscription (assign ds c) fns1
     then let^ fns := call_method "generateSubscriptionFns"
                        (generateFns _getIgnoreFields Subscription) sch fns1 in
          Ok (obj_delete "subscriptions" fns)
     else Ok fns1) = Ok fns2 /\
    (if read_flag enableMutation (assign ds c) fns2
     then call_method "generateMutationFns"
            (generateFns _getIgnoreFields Mutation) sch fns2
     else Ok fns2)
    = Ok (this_fns cl).
Proof.
  unfold constructor. destruct (u_dataSource c) as [[|a ds]|] eqn:Hds; try discriminate.
  cbn [assign dataSource].
  destruct (_getSchema (String a ds)) as [sch|] eqn:Hsch; [|discriminate].
  change (generateQueryFns _getIgnoreFields)
    with (generateFns _getIgnoreFields Query).
  change (generateSubscriptionFns _getIgnoreFields)
    with (generateFns _getIgnoreFields Subscription).
  change (generateMutationFns _getIgnoreFields)
    with (generateFns _getIgnoreFields Mutation).
  destruct (if enableQuery _ then _ else _) as [fns1|e] eqn:E1; [|discriminate].
  cbn [bind].
  destruct (if read_flag enableSubscription _ _ then _ else _) as [fns2|e] eqn:E2;
    [|discriminate].
  cbn [bind].
  destruct (if read_flag enableMutation _ _ then _ else _) as [fns3|e] eqn:E3;
    [|discriminate].
  cbn [bind]. intros [= <-].
  exists (String a ds), sch, fns1, fns2. cbn [this_config this_fns].
  repeat split; try assumption; discriminate.
Qed.

(** X2.  A client is constructed only for a configuration that names a
    data source, not the empty one, for which the subclass has a
    schema.  Without a data source the constructor throws
    [BaseClient requires dataSource config], without a schema
    [BaseClient: unsupported dataSource] followed by the data source. *)
Theorem constructor_needs_data_source_and_schema c :
  (forall cl, constructor _getSchema _getIgnoreFields c = Ok cl ->
     exists ds, u_dataSource c = Some ds /\ ds <> EmptyString /\
                is_Some (_getSchema ds)) /\
  (u_dataSource c = None \/ u_dataSource c = Some EmptyString ->
   constructor _getSchema _getIgnoreFields c
   = Err (Error "BaseClient requires dataSource config")) /\
  (forall ds, u_dataSource c = Some ds -> ds <> EmptyString ->
     _getSchema ds = None ->
     constructor _getSchema _getIgnoreFields c
     = Err (Error ("BaseClient: unsupported dataSource " ++ ds))).
Proof.
  split; [|split].
  - intros cl Hcl.
    destruct (constructor_ok c cl Hcl) as (ds & sch & _ & _ & H1 & H2 & H3 & _).
    exists ds. repeat split; eauto.
  - unfold constructor. intros [->| ->]; reflexivity.
  - intros ds Hds Hne Hsch. unfold constructor. rewrite Hds.
    destruct ds as [|a ds]; [contradiction|].
    cbn [assign dataSource]. now rewrite Hsch.
Qed.

End Registry.

Section Lists.

Variable _getSchema : string -> option schema.
Variable _getIgnoreFields : string -> string -> bool.

Lemma obj_get_Some_key {A} x (v : A) o : obj_get x o = Some v -> In x (obj_keys o).
Proof.
  intros H. destruct (in_dec string_dec x (obj_keys o)) as [Hin|Hnin]; [assumption|].
  apply obj_get_None_keys in Hnin. congruence.
Qed.

Lemma In_getApiList cl k x :
  In x (_getApiList cl k) <->
  exists fn, obj_get x (this_fns cl) = Some fn /\ fn_type fn = k.
Proof.
  unfold _getApiList. rewrite filter_In. split.
  - intros [_ H]. destruct (obj_get x (this_fns cl)) as [fn|]; [|discriminate].
    exists fn. split; [reflexivity|]. destruct (fn_type fn), k; congruence.
  - intros (fn & Hfn & <-). split; [eapply obj_get_Some_key; eauto|].
    rewrite Hfn. now destruct (fn_type fn).
Qed.

Lemma filter_three {A} (p1 p2 p3 : A -> bool) l :
  (forall x, In x l ->
     (p1 x = true /\ p2 x = false /\ p3 x = false) \/
     (p1 x = false /\ p2 x = true /\ p3 x = false) \/
     (p1 x = false /\ p2 x = false /\ p3 x = true)) ->
  length (List.filter p1 l) + length (List.filter p2 l) + length (List.filter p3 l)
  = length l.
Proof.
  induction l as [|a l IH]; intros H; [reflexivity|]. cbn [List.filter].
  specialize (IH (fun x Hx => H x (or_intror Hx))).
  destruct (H a (or_introl eq_refl)) as [(-> & -> & ->)|[(-> & -> & ->)|(-> & -> & ->)]];
    cbn [length]; lia.
Qed.

(** X3.  The three lists of operations split the functions of a client:
    a name is listed under a kind exactly when the client holds a
    function of that kind under it, no name is listed under two kinds,
    and together the lists are as long as the list of names. *)
Theorem api_lists_partition cl :
  (forall x k, In x (_getApiList cl k) <->
     exists fn, obj_get x (this_fns cl) = Some fn /\ fn_type fn = k) /\
  (forall x k1 k2, In x (_getApiList cl k1) -> In x (_getApiList cl k2) -> k1 = k2) /\
  length (getQueries cl) + length (getSubscriptions cl) + length (getMutations cl)
  = length (obj_keys (this_fns cl)).
Proof.
  split; [|split].
  - intros x k. apply In_getApiList.
  - intros x k1 k2 H1 H2.
    apply In_getApiList in H1 as (fn1 & Hf1 & <-).
    apply In_getApiList in H2 as (fn2 & Hf2 & <-). congruence.
  - unfold getQueries, getSubscriptions, getMutations, _getApiList.
    apply filter_three. intros x Hx.
    destruct (obj_get_key x (this_fns cl) Hx) as [fn ->].
    destruct (fn_type fn); auto.
Qed.

Lemma constructor_step_lookup (flag : bool) method k sch fns fns' key fn :
  (if flag then call_method method (generateFns _getIgnoreFields k) sch fns
   else Ok fns) = Ok fns' ->
  obj_get key fns' = Some fn ->
  (flag = true /\ fn_type fn = k) \/ obj_get key fns = Some fn.
Proof.
  destruct flag; [|intros [= <-]; now right].
  unfold call_method. destruct (shadowed method fns); [intros [= <-]; now right|].
  intros Hgen Hget.
  destruct (generateFns_lookup _getIgnoreFields k sch fns fns' key fn Hgen Hget); auto.
Qed.

(** X4.  A client has no function of a kind that its configuration
    disables: the list of that kind is empty. *)
Theorem disabled_kind_has_no_functions c cl k :
  constructor _getSchema _getIgnoreFields c = Ok cl ->
  enabled k (this_config cl) = false ->
  _getApiList cl k = [].
Proof.
  intros Hcl Hoff.
  destruct (constructor_ok _getSchema _getIgnoreFields c cl Hcl)
    as (ds & sch & fns1 & fns2 & _ & _ & _ & Hcfg & E1 & E2 & E3).
  rewrite Hcfg in Hoff.
  destruct (_getApiList cl k) as [|x l] eqn:El; [reflexivity|]. exfalso.
  assert (Hx : In x (_getApiList cl k)) by (rewrite El; now left).
  apply In_getApiList in Hx as (fn & Hfn & Hk).
  destruct (constructor_step_lookup _ _ _ _ _ _ _ _ E3 Hfn) as [[H3 T3]|Hfn2].
  { apply read_flag_true in H3. rewrite T3 in Hk. subst k.
    cbn [enabled] in Hoff. congruence. }
  assert (Hfn1 : (enableSubscription (assign ds c) = true /\ fn_type fn = Subscription)
                 \/ obj_get x fns1 = Some fn).
  { destruct (read_flag enableSubscription (assign ds c) fns1) eqn:Hflag.
    - apply read_flag_true in Hflag.
      destruct (call_method _ _ sch fns1) as [fns|e] eqn:Ec; [|discriminate].
      cbn [bind] in E2. injection E2 as <-.
      rewrite obj_get_delete in Hfn2.
      destruct (String.eqb "subscriptions" x); [discriminate|].
      destruct (constructor_step_lookup true _ _ _ _ _ _ _ Ec Hfn2) as [[_ T]|H];
        auto.
    - injection E2 as <-. now right. }
  destruct Hfn1 as [[H2 T2]|Hfn1].
  { rewrite T2 in Hk. subst k. cbn [enabled] in Hoff. congruence. }
  assert (Hq : (enableQuery (assign ds c) = true /\ fn_type fn = Query)
               \/ obj_get x (@nil (string * generated_fn)) = Some fn).
  { destruct (enableQuery (assign ds c)); [|injection E1 as <-; now right].
    destruct (generateFns_lookup _getIgnoreFields _ _ _ _ _ _ E1 Hfn1); auto. }
  destruct Hq as [[H1 T1]|Hfn0]; [|discriminate].
  rewrite T1 in Hk. subst k. cbn [enabled] in Hoff. congruence.
Qed.

(** X5.  When every kind is disabled or has no root in the schema, the
    constructor generates nothing and cannot fail, whatever the TypeGraph
    holds: it returns a client without functions. *)
Theorem nothing_to_generate c ds sch :
  u_dataSource c = Some ds -> ds <> EmptyString -> _getSchema ds = Some sch ->
  (forall k, enabled k (assign ds c) = false \/ root_type k sch = None) ->
  constructor _getSchema _getIgnoreFields c
  = Ok {| this_config := assign ds c; this_schema := sch; this_fns := [];
          this_subscriptions := enableSubscription (assign ds c) |}.
Proof.
  intros Hds Hne Hsch Hk. unfold constructor. rewrite Hds.
  destruct ds as [|a ds]; [contradiction|].
  cbn [assign dataSource]. rewrite Hsch.
  change (generateQueryFns _getIgnoreFields)
    with (generateFns _getIgnoreFields Query).
  change (generateSubscriptionFns _getIgnoreFields)
    with (generateFns _getIgnoreFields Subscription).
  change (generateMutationFns _getIgnoreFields)
    with (generateFns _getIgnoreFields Mutation).
  set (cfg := assign (String a ds) c) in *.
  assert (Hgen : forall k, enabled k cfg = true ->
                           generateFns _getIgnoreFields k sch [] = Ok []).
  { intros k Hen. destruct (Hk k) as [Hoff|Hroot]; [congruence|].
    rewrite generateFns_unfold. unfold read_schema. cbn [shadowed obj_get].
    now rewrite Hroot. }
  assert (H1 : (if enableQuery cfg then generateFns _getIgnoreFields Query sch []
                else Ok []) = Ok []).
  { destruct (enableQuery cfg) eqn:E; [|reflexivity]. now apply Hgen. }
  rewrite H1. cbn [bind]. unfold read_flag at 1. cbn [shadowed obj_get].
  assert (H2 : (if enableSubscription cfg
                then let^ fns := call_method "generateSubscriptionFns"
                                   (generateFns _getIgnoreFields Subscription) sch [] in
                     Ok (obj_delete "subscriptions" fns)
                else Ok []) = Ok []).
  { destruct (enableSubscription cfg) eqn:E; [|reflexivity].
    unfold call_method. cbn [shadowed obj_get]. now rewrite (Hgen Subscription E). }
  rewrite H2. cbn [bind]. unfold read_flag at 1. cbn [shadowed obj_get].
  assert (H3 : (if enableMutation cfg
                then call_method "generateMutationFns"
                       (generateFns _getIgnoreFields Mutation) sch []
                else Ok []) = Ok []).
  { destruct (enableMutation cfg) eqn:E; [|reflexivity].
    unfold call_method. cbn [shadowed obj_get]. now apply Hgen. }
  rewrite H3. cbn [bind]. unfold read_flag. cbn [shadowed obj_get negb].
  now rewrite andb_true_r.
Qed.

End Lists.

(** ** More of the client: requests *)

(** X6.  When the builder of an operation throws, a missing argument for
    one, the generated function rejects with what it threw and does
    nothing else: a query or a mutation posts nothing, a subscription
    opens no socket and pushes nothing. *)
Theorem failed_builder_sends_nothing
    (_getQueryId : string -> string) (EventEmitter : nat -> list (string * value))
    cfg builder st args e :
  builder args = Err e ->
  (forall answer, queryFn cfg builder st args answer = (st, Rejected e)) /\
  (forall answer, mutationFn cfg builder st args answer = (st, Rejected e)) /\
  subscriptionFn _getQueryId cfg builder st args = (st, Settled (Rejected e)) /\
  (forall jr pr,
     subscribe _getQueryId EventEmitter cfg builder st args jr pr
     = (st, Settled (Rejected e))).
Proof.
  intros Hb. unfold mutationFn, queryFn, subscribe, subscriptionFn. rewrite Hb.
  repeat split.
Qed.

Lemma failed_builder_sends_nothing_witness :
  let builder := fun _ : list (string * value) => @Err string (MissingArgument "id") in
  queryFn demo_config builder init_state []
    (AxiosResolved {| status := 200; data := VObject [] |})
  = (init_state, Rejected (MissingArgument "id")).
Proof.
  intros builder.
  destruct (failed_builder_sends_nothing fingerprint plain_emitter demo_config
              builder init_state [] (MissingArgument "id") eq_refl) as [H _].
  apply H.
Defined.

(** X7.  A response without a body ([res.data] is [undefined] or [null])
    makes [_doRequest] reject with a [TypeError], whatever the status,
    200 included: the body is read before the status is looked at. *)
Theorem doRequest_without_body cfg st query res :
  is_nullish (data res) = true ->
  exists m, snd (_doRequest cfg st query (AxiosResolved res)) = Rejected (TypeError m).
Proof.
  intros H. unfold _doRequest. destruct (data res); try discriminate; cbn; eauto.
Qed.

Lemma doRequest_without_body_witness :
  exists m,
    snd (_doRequest demo_config init_state "{blocks}"
           (AxiosResolved {| status := 200; data := VNull |}))
    = Rejected (TypeError m).
Proof.
  apply (doRequest_without_body demo_config init_state "{blocks}"
           {| status := 200; data := VNull |}).
  reflexivity.
Defined.

(** X8.  Whatever axios answers, a request posts exactly once, to
    [httpBaseUrl/dataSource] with the query it was given, and touches
    nothing of the subscriptions: records, emitters, socket, channel and
    timers are as before. *)
Theorem doRequest_posts_once cfg st query answer :
  effects (fst (_doRequest cfg st query answer))
    = (effects st ++ [AxiosPost (httpBaseUrl cfg ++ "/" ++ dataSource cfg) query])%list /\
  subscriptions (fst (_doRequest cfg st query answer)) = subscriptions st /\
  heap (fst (_doRequest cfg st query answer)) = heap st /\
  socket (fst (_doRequest cfg st query answer)) = socket st /\
  channel (fst (_doRequest cfg st query answer)) = channel st /\
  joined (fst (_doRequest cfg st query answer)) = joined st /\
  timers (fst (_doRequest cfg st query answer)) = timers st.
Proof.
  split; [apply doRequest_effects|].
  unfold _doRequest.
  destruct answer as [res|e];
    [destruct (get_prop (data res) "data"), (get_prop (data res) "errors");
     try destruct (Z.eqb (status res) 200)|];
    repeat split.
Qed.

(** ** More of the client: the channel *)

Section OneSocket.

Variable _getQueryId : string -> string.
Variable EventEmitter : nat -> list (string * value).
Variable cfg : config.
Variable builder : list (string * value) -> result string.

Lemma reply_frame st queryId r :
  effects (fst (subscriptionFn_reply EventEmitter st queryId r)) = effects st /\
  channel (fst (subscriptionFn_reply EventEmitter st queryId r)) = channel st /\
  joined (fst (subscriptionFn_reply EventEmitter st queryId r)) = joined st /\
  socket (fst (subscriptionFn_reply EventEmitter st queryId r)) = socket st.
Proof.
  destruct r as [res|err]; [|repeat split].
  unfold subscriptionFn_reply. cbn [subscriptions].
  rewrite obj_get_set_eq. destruct (get_prop res "subscriptionId"); repeat split.
Qed.

Lemma reply_counts st queryId r :
  sockets_created (fst (subscriptionFn_reply EventEmitter st queryId r))
    = sockets_created st /\
  joins_issued (fst (subscriptionFn_reply EventEmitter st queryId r))
    = joins_issued st /\
  channel_joined (fst (subscriptionFn_reply EventEmitter st queryId r))
    = channel_joined st.
Proof.
  destruct (reply_frame st queryId r) as (He & Hc & Hj & _).
  unfold sockets_created, joins_issued, count, channel_joined.
  now rewrite He, Hc, Hj.
Qed.

(** A whole call whose join, if it needs one, is acknowledged: with a
    joined channel it opens nothing; without one it opens nothing or one
    socket, and in the latter case leaves the channel joined. *)
Lemma subscribe_opens_at_most_one st args jr pr :
  (exists j, jr = ReplyOk j) ->
  let st' := fst (subscribe _getQueryId EventEmitter cfg builder st args jr pr) in
  (forall c, channel_joined st = Some c ->
     channel_joined st' = Some c /\ sockets_created st' = sockets_created st /\
     joins_issued st' = joins_issued st) /\
  (channel_joined st = None ->
     (channel_joined st' = None /\ sockets_created st' = sockets_created st /\
      joins_issued st' = joins_issued st) \/
     ((exists c, channel_joined st' = Some c) /\
      sockets_created st' = S (sockets_created st) /\
      joins_issued st' = S (joins_issued st))).
Proof.
  intros [j ->]. cbv zeta. unfold subscribe, subscriptionFn.
  destruct (builder args) as [query|e]; [|cbn [fst]; split; [auto|intros ->; auto]].
  destruct (lookup_subscription _ _) as [[r|]|];
    [cbn [fst]; split; [auto|intros ->; auto]..|].
  destruct (channel_joined st) as [c|] eqn:E.
  - rewrite (ensure_joined cfg st c E).
    cbn [subscriptionFn_channel push_doc].
    destruct (reply_counts (log [ChannelPush c "doc" query] st) (_getQueryId query) pr)
      as (H1 & H2 & H3).
    split; [|discriminate]. intros c' [= <-]. rewrite H1, H2, H3.
    unfold sockets_created, joins_issued. rewrite !count_log. cbn.
    repeat split; try lia. exact E.
  - pose proof (ensure_not_joined cfg st E) as H. cbv zeta in H.
    destruct (_ensureSubscriptionChannel cfg st) as [st1 p]. cbn [fst snd] in H.
    destruct H as (-> & _ & _ & _ & _ & _ & Hc & Hs & _ & Hjn & _).
    unfold subscriptionFn_channel. cbn [mark_joined channel]. rewrite Hc.
    cbn [push_doc].
    destruct (reply_counts
                (log [ChannelPush (channels_created st) "doc" query]
                   (mark_joined (channels_created st) st1)) (_getQueryId query) pr)
      as (H1 & H2 & H3).
    split; [discriminate|]. intros _. right. rewrite H1, H2, H3.
    unfold sockets_created, joins_issued in *. rewrite !count_log.
    change (count is_SocketNew (mark_joined (channels_created st) st1))
      with (count is_SocketNew st1).
    change (count is_ChannelJoin (mark_joined (channels_created st) st1))
      with (count is_ChannelJoin st1).
    rewrite Hs, Hjn. cbn [List.filter is_SocketNew is_ChannelJoin length].
    repeat split; try lia.
    exists (channels_created st). unfold channel_joined.
    cbn [log mark_joined channel joined]. rewrite Hc.
    destruct (decide _) as [_|Hn]; [reflexivity|exfalso; apply Hn; now left].
Qed.

End OneSocket.

(** X9.  Whole calls made one after the other, the joins that they need
    acknowledged, open at most one socket and issue at most one join
    between them, whatever the queries and the replies to the pushes;
    when the channel is joined to begin with they open none. *)
Theorem sequential_subscribes_share_a_socket
    (_getQueryId : string -> string) (EventEmitter : nat -> list (string * value))
    cfg builder calls : forall st,
  Forall (fun call : list (string * value) * reply * reply =>
            exists j, snd (fst call) = ReplyOk j) calls ->
  (forall c, channel_joined st = Some c ->
     sockets_created (subscribe_each _getQueryId EventEmitter cfg builder calls st)
       = sockets_created st /\
     joins_issued (subscribe_each _getQueryId EventEmitter cfg builder calls st)
       = joins_issued st) /\
  sockets_created (subscribe_each _getQueryId EventEmitter cfg builder calls st)
    <= S (sockets_created st) /\
  joins_issued (subscribe_each _getQueryId EventEmitter cfg builder calls st)
    <= S (joins_issued st).
Proof.
  induction calls as [|[[args jr] pr] calls IH]; intros st Hok.
  - cbn. repeat split; auto.
  - apply Forall_cons in Hok as [Hjr Hok]. cbn [fst snd] in Hjr.
    change (subscribe_each _getQueryId EventEmitter cfg builder
              ((args, jr, pr) :: calls) st)
      with (subscribe_each _getQueryId EventEmitter cfg builder calls
              (fst (subscribe _getQueryId EventEmitter cfg builder st args jr pr))).
    destruct (subscribe_opens_at_most_one _getQueryId EventEmitter cfg builder
                st args jr pr Hjr) as [Hj Hn].
    destruct (IH (fst (subscribe _getQueryId EventEmitter cfg builder st args jr pr)) Hok)
      as (IHj & IHs & IHjn).
    destruct (channel_joined st) as [c|] eqn:E.
    + destruct (Hj c eq_refl) as (Hc & Hs & Hjn).
      destruct (IHj c Hc) as [H1 H2].
      split; [intros c' _; split; congruence|]. split; lia.
    + split; [discriminate|].
      destruct (Hn eq_refl) as [(_ & Hs & Hjn)|([c Hc] & Hs & Hjn)].
      * split; lia.
      * destruct (IHj c Hc) as [H1 H2]. split; lia.
Qed.

Lemma sequential_subscribes_share_a_socket_witness :
  sockets_created
    (subscribe_each fingerprint plain_emitter demo_config demo_builder
       [([], ReplyOk VNull, ok_reply "s1");
        ([("height", VNum 1)], ReplyOk VNull, ReplyError (VStr "denied"));
        ([("height", VNum 2)], ReplyOk VNull, ok_reply "s3")] init_state) <= 1.
Proof.
  apply (sequential_subscribes_share_a_socket fingerprint plain_emitter
           demo_config demo_builder
           [([], ReplyOk VNull, ok_reply "s1");
            ([("height", VNum 1)], ReplyOk VNull, ReplyError (VStr "denied"));
            ([("height", VNum 2)], ReplyOk VNull, ok_reply "s3")] init_state).
  repeat constructor; exists VNull; reflexivity.
Defined.

(** X10.  When the join is rejected the call rejects with that error:
    nothing was pushed and no record was made, but a socket was created
    and the channel is still not joined, so that the next call creates
    another socket. *)
Theorem rejected_join_leaves_a_socket
    (_getQueryId : string -> string) (EventEmitter : nat -> list (string * value))
    cfg builder st args query err pr :
  wf st -> channel_joined st = None ->
  builder args = Ok query ->
  lookup_subscription st (_getQueryId query) = None ->
  exists st',
    subscribe _getQueryId EventEmitter cfg builder st args (ReplyError err) pr
      = (st', Settled (Rejected (Thrown err))) /\
    subscriptions st' = subscriptions st /\ heap st' = heap st /\
    doc_pushes st' = doc_pushes st /\
    sockets_created st' = S (sockets_created st) /\
    channel_joined st' = None /\
    sockets_created (fst (_ensureSubscriptionChannel cfg st'))
      = S (S (sockets_created st)).
Proof.
  intros Hwf E Hb Hnone. unfold subscribe, subscriptionFn. rewrite Hb, Hnone.
  pose proof (ensure_not_joined cfg st E) as H. cbv zeta in H.
  pose proof (ensure_still_not_joined cfg st Hwf E) as Hstill.
  pose proof (wf_ensure cfg st Hwf) as Hwf1.
  destruct (_ensureSubscriptionChannel cfg st) as [st1 p]. cbn [fst snd] in *.
  destruct H as (-> & Hs & Hh & _ & _ & _ & _ & Hsock & _ & _ & Hd).
  exists st1. cbn [subscriptionFn_channel]. repeat split; try assumption.
  destruct (ensure_not_joined cfg st1 Hstill) as (_ & _ & _ & _ & _ & _ & _ & H2 & _).
  now rewrite H2, Hsock.
Qed.

Lemma rejected_join_leaves_a_socket_witness :
  exists st',
    subscribe fingerprint plain_emitter demo_config demo_builder init_state []
      (ReplyError (VStr "unmatched topic")) (ok_reply "s1")
      = (st', Settled (Rejected (Thrown (VStr "unmatched topic")))) /\
    subscriptions st' = [] /\ heap st' = [] /\
    doc_pushes st' = [] /\
    sockets_created st' = 1 /\
    channel_joined st' = None /\
    sockets_created (fst (_ensureSubscriptionChannel demo_config st')) = 2.
Proof.
  apply (rejected_join_leaves_a_socket fingerprint plain_emitter demo_config
           demo_builder init_state [] "subscription{newBlock({})}").
  - apply wf_init.
  - reflexivity.
  - reflexivity.
  - reflexivity.
Defined.

(** ** More of the client: inbound messages *)

Lemma find_queryId_result st payload sid keys :
  get_prop payload "subscriptionId" = Ok sid ->
  (forall x, In x keys -> In x (obj_keys (subscriptions st))) ->
  find_queryId st payload keys = Ok None \/
  exists x r,
    find_queryId st payload keys = Ok (Some x) /\ In x keys /\
    obj_get x (subscriptions st) = Some r /\
    strict_eq (read_member st r "subscriptionId") sid = true.
Proof.
  intros Hsid. induction keys as [|x keys IH]; intros Hkeys; [now left|].
  cbn [find_queryId].
  destruct (obj_get_key x (subscriptions st)) as [r Hr]; [apply Hkeys; now left|].
  rewrite Hr, Hsid. cbn [bind].
  destruct (strict_eq (read_member st r "subscriptionId") sid) eqn:E.
  - right. exists x, r. repeat split; auto. now left.
  - destruct IH as [->|(y & ry & -> & Hy & Hget & Hm)];
      [intros y Hy; apply Hkeys; now right | now left |].
    right. exists y, ry. repeat split; auto. now right.
Qed.

Lemma find_queryId_unique st payload sid q keys :
  get_prop payload "subscriptionId" = Ok sid ->
  (forall x, In x keys -> In x (obj_keys (subscriptions st))) ->
  (forall x r, obj_get x (subscriptions st) = Some r ->
               strict_eq (read_member st r "subscriptionId") sid = true -> x = q) ->
  In q keys ->
  (exists r, obj_get q (subscriptions st) = Some r /\
             strict_eq (read_member st r "subscriptionId") sid = true) ->
  find_queryId st payload keys = Ok (Some q).
Proof.
  intros Hsid Hkeys Huniq Hq (r & Hr & Hm).
  induction keys as [|x keys IH]; [destruct Hq|].
  cbn [find_queryId].
  destruct (obj_get_key x (subscriptions st)) as [rx Hrx]; [apply Hkeys; now left|].
  rewrite Hrx, Hsid. cbn [bind].
  destruct (strict_eq (read_member st rx "subscriptionId") sid) eqn:E.
  - now rewrite (Huniq x rx Hrx E).
  - apply IH; [intros y Hy; apply Hkeys; now right|].
    destruct Hq as [->|Hq]; [congruence|assumption].
Qed.

Lemma onMessage_match st payload sid d q r :
  wf st ->
  get_prop payload "subscriptionId" = Ok sid ->
  bind (get_prop payload "result") (fun res => get_prop res "data") = Ok d ->
  obj_get q (subscriptions st) = Some r -> q <> EmptyString ->
  strict_eq (read_member st r "subscriptionId") sid = true ->
  (forall q' r', In (q', r') (subscriptions st) ->
     strict_eq (read_member st r' "subscriptionId") sid = true -> q' = q) ->
  snd (onMessage st "subscription:data" payload) = Ok tt /\
  events (fst (onMessage st "subscription:data" payload)) r
    = (events st r ++ [("data", d)])%list /\
  (forall r', r' <> r ->
     events (fst (onMessage st "subscription:data" payload)) r' = events st r') /\
  subscriptions (fst (onMessage st "subscription:data" payload)) = subscriptions st.
Proof.
  intros (H1 & _) Hsid Hd Hr Hq Hm Huniq. unfold onMessage.
  cbn [String.eqb Ascii.eqb Bool.eqb].
  rewrite (find_queryId_unique st payload sid q (obj_keys (subscriptions st)) Hsid).
  - destruct q as [|a q']; [contradiction|]. rewrite Hr, Hd, emit_data. cbn [fst snd].
    split; [reflexivity|]. split; [|split; [|reflexivity]].
    + rewrite events_record. destruct (decide (r = r)) as [_|Hn]; [|contradiction].
      destruct (lookup_lt_is_Some_2 (heap st) r) as [em ->]; [|reflexivity].
      apply (H1 _ _ (obj_get_In _ _ _ Hr)).
    + intros r' Hne. rewrite events_record. destruct (decide (r = r')); congruence.
  - auto.
  - intros x rx Hx. apply Huniq. now apply obj_get_In.
  - eapply obj_get_Some_key. exact Hr.
  - eauto.
Qed.

(** X11.  A [subscription:data] message whose id is that of one record,
    kept under a query id that is not empty, puts one [data] event with
    [payload.result.data] on the emitter of that record and on no other,
    and leaves the records as they are. *)
Theorem onMessage_delivers_to_the_record st payload sid d q r :
  wf st ->
  get_prop payload "subscriptionId" = Ok sid ->
  bind (get_prop payload "result") (fun res => get_prop res "data") = Ok d ->
  obj_get q (subscriptions st) = Some r -> q <> EmptyString ->
  strict_eq (read_member st r "subscriptionId") sid = true ->
  (forall q' r', In (q', r') (subscriptions st) ->
     strict_eq (read_member st r' "subscriptionId") sid = true -> q' = q) ->
  snd (onMessage st "subscription:data" payload) = Ok tt /\
  events (fst (onMessage st "subscription:data" payload)) r
    = (events st r ++ [("data", d)])%list /\
  (forall r', r' <> r ->
     events (fst (onMessage st "subscription:data" payload)) r' = events st r') /\
  subscriptions (fst (onMessage st "subscription:data" payload)) = subscriptions st.
Proof. apply onMessage_match. Qed.

(** X12.  Subscribing and then receiving: after an acknowledged first
    call for a query whose id is not empty, a [subscription:data]
    message that carries the subscription id of the acknowledgement, a
    string that no earlier record has, puts its data on the emitter that
    the call resolved with, as the first event of that emitter. *)
Theorem subscribe_then_data_reaches_the_stream
    (_getQueryId : string -> string) (EventEmitter : nat -> list (string * value))
    cfg builder st args query jr res sid payload d :
  wf st -> builder args = Ok query ->
  _getQueryId query <> EmptyString ->
  lookup_subscription st (_getQueryId query) = None ->
  (channel_joined st = None -> exists j, jr = ReplyOk j) ->
  get_prop res "subscriptionId" = Ok (VStr sid) ->
  (forall q r, In (q, r) (subscriptions st) ->
     strict_eq (read_member st r "subscriptionId") (VStr sid) = false) ->
  get_prop payload "subscriptionId" = Ok (VStr sid) ->
  bind (get_prop payload "result") (fun res => get_prop res "data") = Ok d ->
  exists st1,
    subscribe _getQueryId EventEmitter cfg builder st args jr (ReplyOk res)
      = (st1, Settled (Resolved (VRef (length (heap st))))) /\
    snd (onMessage st1 "subscription:data" payload) = Ok tt /\
    events (fst (onMessage st1 "subscription:data" payload)) (length (heap st))
      = [("data", d)].
Proof.
  intros Hwf Hb Hq Hnone Hjr Hres Hold Hsid Hd.
  destruct (subscribe_fresh _getQueryId EventEmitter cfg builder
              st args query jr res (VStr sid) Hb Hnone Hjr Hres)
    as (c & st1 & E1 & Hsub & Hheap & _).
  assert (Hwf1 : wf st1).
  { replace st1 with (fst (subscribe _getQueryId EventEmitter cfg builder st args jr
                             (ReplyOk res))) by now rewrite E1.
    now apply wf_subscribe. }
  assert (Hnew : read_member st1 (length (heap st)) "subscriptionId" = VStr sid).
  { unfold read_member. rewrite Hheap, list_lookup_middle by reflexivity.
    cbn [members]. now rewrite obj_get_set_eq. }
  assert (Hev : events st1 (length (heap st)) = []).
  { unfold events. now rewrite Hheap, list_lookup_middle by reflexivity. }
  exists st1. split; [exact E1|].
  destruct (onMessage_match st1 payload (VStr sid) d
              (_getQueryId query) (length (heap st)) Hwf1 Hsid Hd)
    as (Hok & Hdel & _); try assumption.
  - rewrite Hsub. apply obj_get_set_eq.
  - rewrite Hnew. cbn. apply String.eqb_refl.
  - intros q' r' Hin Hm. rewrite Hsub in Hin.
    apply In_obj_set in Hin as [[= -> _]|Hin]; [reflexivity|]. exfalso.
    destruct Hwf as (Hlt & _). specialize (Hlt _ _ Hin).
    assert (Hsame : read_member st1 r' "subscriptionId"
                    = read_member st r' "subscriptionId").
    { unfold read_member. now rewrite Hheap, lookup_app_l. }
    rewrite Hsame, (Hold _ _ Hin) in Hm. discriminate.
  - split; [exact Hok|]. now rewrite Hdel, Hev.
Qed.

Lemma onMessage_delivers_to_the_record_witness :
  let st := fst (subscribe fingerprint plain_emitter demo_config demo_builder
                   init_state [] (ReplyOk VNull) (ok_reply "s1")) in
  let payload := VObject [("subscriptionId", VStr "s1");
                          ("result", VObject [("data", VNum 7)])] in
  snd (onMessage st "subscription:data" payload) = Ok tt /\
  events (fst (onMessage st "subscription:data" payload)) 0 = [("data", VNum 7)] /\
  (forall r', r' <> 0 ->
     events (fst (onMessage st "subscription:data" payload)) r' = events st r') /\
  subscriptions (fst (onMessage st "subscription:data" payload)) = subscriptions st.
Proof.
  intros st payload.
  apply (onMessage_delivers_to_the_record st payload (VStr "s1") (VNum 7)
           (fingerprint "subscription{newBlock({})}") 0).
  - apply wf_subscribe, wf_init.
  - reflexivity.
  - reflexivity.
  - reflexivity.
  - discriminate.
  - reflexivity.
  - intros q' r' [[= <- <-]|[]] _. reflexivity.
Defined.

Lemma subscribe_then_data_reaches_the_stream_witness :
  exists st1,
    subscribe fingerprint plain_emitter demo_config demo_builder init_state []
      (ReplyOk VNull) (ok_reply "s1")
      = (st1, Settled (Resolved (VRef 0))) /\
    snd (onMessage st1 "subscription:data"
           (VObject [("subscriptionId", VStr "s1");
                     ("result", VObject [("data", VNum 7)])])) = Ok tt /\
    events (fst (onMessage st1 "subscription:data"
                   (VObject [("subscriptionId", VStr "s1");
                             ("result", VObject [("data", VNum 7)])]))) 0
      = [("data", VNum 7)].
Proof.
  apply (subscribe_then_data_reaches_the_stream fingerprint plain_emitter
           demo_config demo_builder init_state [] "subscription{newBlock({})}"
           (ReplyOk VNull) (VObject [("subscriptionId", VStr "s1")]) "s1").
  - apply wf_init.
  - reflexivity.
  - discriminate.
  - reflexivity.
  - intros _. exists VNull. reflexivity.
  - reflexivity.
  - intros q r [].
  - reflexivity.
  - reflexivity.
Defined.

(** X13.  The message handler only ever emits: whatever the message, the
    records, the socket, the channel, the timers and the trace of
    effects are as before and no emitter is created or lost; a message
    of another event than [subscription:data] changes nothing at all;
    and when the handler throws, nothing was emitted. *)
Theorem onMessage_only_emits st event payload :
  (subscriptions (fst (onMessage st event payload)) = subscriptions st /\
   effects (fst (onMessage st event payload)) = effects st /\
   socket (fst (onMessage st event payload)) = socket st /\
   channel (fst (onMessage st event payload)) = channel st /\
   joined (fst (onMessage st event payload)) = joined st /\
   timers (fst (onMessage st event payload)) = timers st /\
   length (heap (fst (onMessage st event payload))) = length (heap st)) /\
  (event <> "subscription:data" -> onMessage st event payload = (st, Ok tt)) /\
  (forall e, snd (onMessage st event payload) = Err e ->
             fst (onMessage st event payload) = st).
Proof.
  unfold onMessage.
  destruct (String.eqb_spec event "subscription:data") as [->|Hev].
  - destruct (find_queryId _ _ _) as [[[|a q]|]|e0];
      try (cbn [fst snd]; repeat split; congruence).
    destruct (obj_get _ _) as [r|];
      [|cbn [fst snd]; repeat split; congruence].
    destruct (bind _ _) as [d|e1]; [rewrite emit_data|]; cbn [fst snd].
    + split; [|split; [congruence|discriminate]].
      repeat split. apply length_heap_record.
    + repeat split; congruence.
  - cbn [fst snd]. repeat split; congruence.
Qed.

Lemma onMessage_only_emits_witness :
  onMessage init_state "phx_reply" VNull = (init_state, Ok tt).
Proof.
  destruct (onMessage_only_emits init_state "phx_reply" VNull) as (_ & H & _).
  apply H. discriminate.
Defined.

(** X14.  A record kept under the empty query id never gets data: when
    the only records that a [subscription:data] message matches are
    under the empty id, the handler returns with the state unchanged. *)
Theorem onMessage_drops_data_for_the_empty_query_id st payload sid :
  get_prop payload "subscriptionId" = Ok sid ->
  (forall q r, In (q, r) (subscriptions st) ->
     strict_eq (read_member st r "subscriptionId") sid = true -> q = EmptyString) ->
  onMessage st "subscription:data" payload = (st, Ok tt).
Proof.
  intros Hsid Hempty. unfold onMessage. cbn [String.eqb Ascii.eqb Bool.eqb].
  destruct (find_queryId_result st payload sid (obj_keys (subscriptions st)) Hsid)
    as [->|(x & r & -> & _ & Hr & Hm)]; [auto|reflexivity|].
  now rewrite (Hempty x r (obj_get_In _ _ _ Hr) Hm).
Qed.

Lemma onMessage_drops_data_for_the_empty_query_id_witness :
  let st := fst (subscribe (fun _ => EmptyString) plain_emitter demo_config
                   demo_builder init_state [] (ReplyOk VNull) (ok_reply "s1")) in
  subscriptions st = [(EmptyString, 0)] /\
  onMessage st "subscription:data"
    (VObject [("subscriptionId", VStr "s1");
              ("result", VObject [("data", VNum 7)])])
  = (st, Ok tt).
Proof.
  intros st. split; [reflexivity|].
  apply (onMessage_drops_data_for_the_empty_query_id st _ (VStr "s1")).
  - reflexivity.
  - intros q r [[= <- <-]|[]] _. reflexivity.
Defined.

(** X15.  A [subscription:data] message without a payload ([undefined]
    or [null]) makes the handler throw a [TypeError] as soon as there is
    a record to compare with, and is ignored when there is none; in both
    cases the state is unchanged. *)
Theorem onMessage_without_payload st payload :
  is_nullish payload = true ->
  (subscriptions st = [] ->
   onMessage st "subscription:data" payload = (st, Ok tt)) /\
  (subscriptions st <> [] ->
   exists m, onMessage st "subscription:data" payload = (st, Err (TypeError m))).
Proof.
  intros Hnull. unfold onMessage. cbn [String.eqb Ascii.eqb Bool.eqb].
  destruct (subscriptions st) as [|[q r] l] eqn:Es.
  - split; [reflexivity|congruence].
  - split; [discriminate|]. intros _.
    cbn [obj_keys map fst find_queryId]. rewrite Es. cbn [obj_get].
    rewrite String.eqb_refl.
    destruct payload; try discriminate; cbn; eauto.
Qed.

Lemma onMessage_without_payload_witness :
  let st := fst (subscribe fingerprint plain_emitter demo_config demo_builder
                   init_state [] (ReplyOk VNull) (ok_reply "s1")) in
  onMessage init_state "subscription:data" VNull = (init_state, Ok tt) /\
  exists m, onMessage st "subscription:data" VNull = (st, Err (TypeError m)).
Proof.
  intros st. split.
  - apply (onMessage_without_payload init_state VNull eq_refl). reflexivity.
  - apply (onMessage_without_payload st VNull eq_refl). discriminate.
Defined.

(** ** More of the client: reconnecting, and racing calls *)

(** X16.  After a connection error that every recorded emitter has a
    listener for, the handler returns, and the next timer that fires
    calls [connect] on the socket that the client holds then, the last
    one created; as many timers are pending as before the error. *)
Theorem reconnect_timer_connects_the_current_socket st err s :
  socket st = Some s ->
  (forall q r, In (q, r) (subscriptions st) -> listens st r "error" = true) ->
  snd (onConnError st err) = Ok tt /\
  effects (fire_timer (fst (onConnError st err)))
    = (effects st ++ [SetTimeout 1000 ReconnectSocket; SocketConnect s])%list /\
  length (timers (fire_timer (fst (onConnError st err)))) = length (timers st) /\
  subscriptions (fire_timer (fst (onConnError st err))) = subscriptions st.
Proof.
  intros Hs Hall. unfold onConnError. rewrite broadcast_error_heard.
  2:{ intros q Hq. destruct (obj_get_key _ _ Hq) as [r Hr].
      exists r. split; [exact Hr|]. apply (Hall q). now apply obj_get_In. }
  set (refs := omap _ _). cbn [fst snd]. split; [reflexivity|].
  destruct (emit_all_frame "error" err refs st) as (Es & Ek & _ & _ & Et & Ee & _).
  unfold fire_timer, arm_reconnect. cbn [log timers socket]. rewrite Et, Ek, Hs.
  destruct (timers st) as [|[dl []] rest]; cbn [app];
    cbn [log effects timers subscriptions length]; rewrite Ee, Es, <- app_assoc;
    repeat split.
  rewrite length_app. cbn. lia.
Qed.

Lemma reconnect_timer_connects_the_current_socket_witness :
  let st0 := fst (subscribe fingerprint plain_emitter demo_config demo_builder
                    init_state [] (ReplyError (VStr "refused")) (ok_reply "s0")) in
  let st := listen 0 "error"
              (fst (subscribe fingerprint plain_emitter demo_config demo_builder
                      st0 [] (ReplyOk VNull) (ok_reply "s1"))) in
  subscriptions st = [(fingerprint "subscription{newBlock({})}", 0)] /\
  sockets_created st = 2 /\
  snd (onConnError st (VStr "closed")) = Ok tt /\
  effects (fire_timer (fst (onConnError st (VStr "closed"))))
  = (effects st ++ [SetTimeout 1000 ReconnectSocket; SocketConnect 1])%list.
Proof.
  intros st0 st. split; [reflexivity|]. split; [reflexivity|].
  destruct (reconnect_timer_connects_the_current_socket st (VStr "closed") 1)
    as (H1 & H2 & _).
  - reflexivity.
  - intros q r [[= <- <-]|[]]. reflexivity.
  - split; [exact H1|exact H2].
Defined.

Lemma NoDup_values_injective {A} (o : list (string * A)) q1 q2 r :
  NoDup (map snd o) -> In (q1, r) o -> In (q2, r) o -> q1 = q2.
Proof.
  induction o as [|[q v] o IH]; cbn [map snd]; intros Hnd H1 H2; [destruct H1|].
  apply NoDup_cons in Hnd as [Hv Hnd].
  assert (Hin : forall q', In (q', v) o -> False).
  { intros q' Hq. apply Hv, list_elem_of_In. change v with (snd (q', v)).
    now apply in_map. }
  destruct H1 as [E1|H1], H2 as [E2|H2].
  - congruence.
  - injection E1 as _ ->. exfalso. eauto.
  - injection E2 as _ ->. exfalso. eauto.
  - eauto.
Qed.

(** X17.  In every state of a running client, whatever the calls, the
    replies and the messages were, each record holds an emitter that
    exists, and no emitter is held by two records. *)
Theorem running_client_keeps_records_apart
    (_getQueryId : string -> string) (EventEmitter : nat -> list (string * value))
    cfg st :
  reachable _getQueryId EventEmitter cfg st ->
  (forall q r, obj_get q (subscriptions st) = Some r -> is_Some (heap st !! r)) /\
  (forall q1 q2 r,
     obj_get q1 (subscriptions st) = Some r ->
     obj_get q2 (subscriptions st) = Some r -> q1 = q2).
Proof.
  intros Hr. destruct (reachable_wf _ _ _ _ Hr) as (H1 & _ & H3 & _). split.
  - intros q r Hq. apply lookup_lt_is_Some_2. eapply H1, obj_get_In, Hq.
  - intros q1 q2 r Hq1 Hq2.
    eapply NoDup_values_injective; eauto using obj_get_In.
Qed.

Lemma running_client_keeps_records_apart_witness :
  let st := fst (racing_calls fingerprint plain_emitter demo_config demo_builder
                   init_state [] [] (ReplyOk VNull) (ReplyOk VNull)
                   (ok_reply "s1") (ok_reply "s2")) in
  is_Some (heap (fst st) !! 1).
Proof.
  intros st.
  assert (Hr : reachable fingerprint plain_emitter demo_config (fst st)).
  { change (fst st) with
      (fst (subscriptionFn_reply plain_emitter
        (fst (subscriptionFn_reply plain_emitter
          (fst (subscriptionFn_channel
            (fst (subscriptionFn_channel
              (fst (subscriptionFn fingerprint demo_config demo_builder
                (fst (subscriptionFn fingerprint demo_config demo_builder init_state []))
                []))
              (ChannelPending 0) "subscription{newBlock({})}"
              (fingerprint "subscription{newBlock({})}") (ReplyOk VNull)))
            (ChannelPending 1) "subscription{newBlock({})}"
            (fingerprint "subscription{newBlock({})}") (ReplyOk VNull)))
          (fingerprint "subscription{newBlock({})}") (ok_reply "s1")))
        (fingerprint "subscription{newBlock({})}") (ok_reply "s2"))).
    apply reachable_reply; [|reflexivity]. apply reachable_reply; [|reflexivity].
    apply reachable_join; [|intros c [= <-]; vm_compute; lia].
    apply reachable_join; [|intros c [= <-]; vm_compute; lia].
    apply reachable_call, reachable_call, reachable_init. }
  destruct (running_client_keeps_records_apart fingerprint plain_emitter
              demo_config (fst st) Hr) as [H _].
  apply (H (fingerprint "subscription{newBlock({})}") 1). reflexivity.
Defined.

Lemma obj_set_twice {A} q (v v' : A) o :
  obj_set q v (obj_set q v' o) = obj_set q v o.
Proof.
  induction o as [|[q0 v0] o IH]; cbn [obj_set].
  - now rewrite String.eqb_refl.
  - destruct (String.eqb_spec q q0) as [->|Hne]; cbn [obj_set].
    + now rewrite String.eqb_refl.
    + destruct (String.eqb_spec q q0); [contradiction|]. now rewrite IH.
Qed.

(** X18.  Two calls for the same query made before any reply comes in
    are not merged: each opens a socket, both queries are pushed, on the
    channel of the second call, and each call resolves with an emitter
    of its own.  The record made for the second call replaces the one
    made for the first, whose emitter is then held by no record. *)
Theorem racing_identical_calls_leave_one_record
    (_getQueryId : string -> string) (EventEmitter : nat -> list (string * value))
    cfg builder st args query j1 j2 res1 res2 sid1 sid2 :
  wf st -> channel_joined st = None ->
  builder args = Ok query ->
  lookup_subscription st (_getQueryId query) = None ->
  get_prop res1 "subscriptionId" = Ok sid1 ->
  get_prop res2 "subscriptionId" = Ok sid2 ->
  exists st',
    racing_calls _getQueryId EventEmitter cfg builder st args args
      (ReplyOk j1) (ReplyOk j2) (ReplyOk res1) (ReplyOk res2)
    = (st', Settled (Resolved (VRef (length (heap st)))),
       Settled (Resolved (VRef (S (length (heap st)))))) /\
    sockets_created st' = S (S (sockets_created st)) /\
    doc_pushes st'
      = (doc_pushes st ++ [(S (channels_created st), query);
                           (S (channels_created st), query)])%list /\
    obj_get (_getQueryId query) (subscriptions st') = Some (S (length (heap st))) /\
    (forall q, obj_get q (subscriptions st') <> Some (length (heap st))).
Proof.
  intros Hwf E Hb Hnone Hs1 Hs2. unfold racing_calls.
  pose proof (ensure_not_joined cfg st E) as F1. cbv zeta in F1.
  pose proof (ensure_still_not_joined cfg st Hwf E) as E'.
  assert (C1 : subscriptionFn _getQueryId cfg builder st args
               = (fst (_ensureSubscriptionChannel cfg st),
                  AwaitChannel (ChannelPending (channels_created st)) query
                    (_getQueryId query))).
  { unfold subscriptionFn. rewrite Hb, Hnone.
    destruct F1 as (Hp & _). destruct (_ensureSubscriptionChannel cfg st).
    cbn [fst snd] in *. now rewrite Hp. }
  rewrite C1. set (st1 := fst (_ensureSubscriptionChannel cfg st)) in *.
  destruct F1 as (_ & Hsub1 & Hheap1 & _ & _ & _ & _ & Hsock1 & Hchan1 & _ & Hd1).
  pose proof (ensure_not_joined cfg st1 E') as F2. cbv zeta in F2.
  assert (C2 : subscriptionFn _getQueryId cfg builder st1 args
               = (fst (_ensureSubscriptionChannel cfg st1),
                  AwaitChannel (ChannelPending (S (channels_created st))) query
                    (_getQueryId query))).
  { unfold subscriptionFn. rewrite Hb, (lookup_same st st1 _ Hsub1), Hnone.
    destruct F2 as (Hp & _). destruct (_ensureSubscriptionChannel cfg st1).
    cbn [fst snd] in *. now rewrite Hp, Hchan1. }
  rewrite C2. set (st2 := fst (_ensureSubscriptionChannel cfg st1)) in *.
  destruct F2 as (_ & Hsub2 & Hheap2 & _ & _ & _ & Hc2 & Hsock2 & _ & _ & Hd2).
  rewrite Hchan1 in Hc2.
  cbn [resume subscriptionFn_channel mark_joined channel]. rewrite Hc2.
  cbn [push_doc log mark_joined channel]. rewrite Hc2.
  cbn [push_doc resume].
  match goal with
  | |- context [subscriptionFn_reply EventEmitter ?s _ (ReplyOk res1)] =>
      set (st4 := s)
  end.
  assert (Hheap4 : heap st4 = heap st) by (subst st4; cbn; congruence).
  assert (Hsub4 : subscriptions st4 = subscriptions st) by (subst st4; cbn; congruence).
  destruct (reply_ok EventEmitter st4 (_getQueryId query) res1 sid1 Hs1)
    as (st5 & -> & Hsub5 & Hheap5 & _ & _ & He5).
  assert (Hlen5 : length (heap st5) = S (length (heap st))).
  { rewrite Hheap5, length_app, Hheap4. cbn [length]. lia. }
  destruct (reply_ok EventEmitter st5 (_getQueryId query) res2 sid2 Hs2)
    as (st6 & -> & Hsub6 & Hheap6 & _ & _ & He6).
  rewrite Hlen5 in *. rewrite Hheap4 in *.
  exists st6. split; [reflexivity|].
  assert (Heff : effects st6
                 = (effects st2 ++ [ChannelPush (S (channels_created st)) "doc" query]
                    ++ [ChannelPush (S (channels_created st)) "doc" query])%list).
  { rewrite He6, He5. subst st4. cbn [effects log mark_joined].
    now rewrite <- app_assoc. }
  split; [|split; [|split]].
  - unfold sockets_created, count in *. rewrite Heff, !List.filter_app, !length_app.
    cbn. lia.
  - unfold doc_pushes in *. rewrite Heff, !omap_app, Hd2, Hd1. reflexivity.
  - rewrite Hsub6. apply obj_get_set_eq.
  - intros q Hq. rewrite Hsub6, Hsub5, Hsub4, obj_set_twice in Hq.
    apply obj_get_In, In_obj_set in Hq as [Heq|Hq];
      [apply (f_equal snd) in Heq; cbn [snd] in Heq; lia|].
    destruct Hwf as (Hlt & _). specialize (Hlt _ _ Hq). lia.
Qed.

Lemma racing_identical_calls_leave_one_record_witness :
  exists st',
    racing_calls fingerprint plain_emitter demo_config demo_builder init_state [] []
      (ReplyOk VNull) (ReplyOk VNull) (ok_reply "s1") (ok_reply "s2")
    = (st', Settled (Resolved (VRef 0)), Settled (Resolved (VRef 1))) /\
    sockets_created st' = 2 /\
    doc_pushes st' = [(1, "subscription{newBlock({})}");
                      (1, "subscription{newBlock({})}")] /\
    obj_get (fingerprint "subscription{newBlock({})}") (subscriptions st') = Some 1 /\
    (forall q, obj_get q (subscriptions st') <> Some 0).
Proof.
  apply (racing_identical_calls_leave_one_record fingerprint plain_emitter
           demo_config demo_builder init_state [] "subscription{newBlock({})}"
           VNull VNull (VObject [("subscriptionId", VStr "s1")])
           (VObject [("subscriptionId", VStr "s2")]) (VStr "s1") (VStr "s2")).
  - apply wf_init.
  - reflexivity.
  - reflexivity.
  - reflexivity.
  - reflexivity.
  - reflexivity.
Defined.

Lemma constructor_needs_data_source_and_schema_witness :
  constructor (fun _ => None) hide_password demo_user_config
  = Err (Error "BaseClient: unsupported dataSource eth").
Proof.
  destruct (constructor_needs_data_source_and_schema (fun _ => None) hide_password
              demo_user_config) as (_ & _ & H).
  apply (H "eth"); [reflexivity | discriminate | reflexivity].
Defined.

Lemma api_lists_partition_witness :
  In "blocks" (getQueries demo_client) /\
  length (getQueries demo_client) + length (getSubscriptions demo_client)
  + length (getMutations demo_client) = 2.
Proof.
  destruct (api_lists_partition demo_client) as (H & _ & Hlen). split.
  - apply (H "blocks" Query). eexists. split; reflexivity.
  - exact Hlen.
Defined.

Lemma disabled_kind_has_no_functions_witness :
  exists cl,
    constructor (fun _ => Some demo_schema) hide_password
      {| u_dataSource := Some "eth"; u_httpBaseUrl := None;
         u_socketBaseUrl := None; u_enableQuery := Some false;
         u_enableSubscription := None; u_enableMutation := None |} = Ok cl /\
    _getApiList cl Query = [].
Proof.
  exists {| this_config :=
             assign "eth"
               {| u_dataSource := Some "eth"; u_httpBaseUrl := None;
                  u_socketBaseUrl := None; u_enableQuery := Some false;
                  u_enableSubscription := None; u_enableMutation := None |};
           this_schema := demo_schema; this_fns := [];
           this_subscriptions := true |}.
  split; [reflexivity|].
  apply (disabled_kind_has_no_functions (fun _ => Some demo_schema) hide_password
           {| u_dataSource := Some "eth"; u_httpBaseUrl := None;
              u_socketBaseUrl := None; u_enableQuery := Some false;
              u_enableSubscription := None; u_enableMutation := None |});
    reflexivity.
Defined.

Lemma nothing_to_generate_witness :
  constructor
    (fun _ => Some {| types := broken_graph; queryType := None;
                      mutationType := None; subscriptionType := None |})
    hide_password demo_user_config
  = Ok {| this_config := demo_config;
          this_schema := {| types := broken_graph; queryType := None;
                            mutationType := None; subscriptionType := None |};
          this_fns := []; this_subscriptions := true |}.
Proof.
  apply (nothing_to_generate _ hide_password demo_user_config "eth").
  - reflexivity.
  - discriminate.
  - reflexivity.
  - intros k. right. now destruct k.
Defined.

(** X19.  The endpoints of a client: with no [httpBaseUrl] in the
    configuration requests are posted to
    [https://ocap.arcblock.io/api/<dataSource>], with one they go to
    [<httpBaseUrl>/<dataSource>]; with no [socketBaseUrl] the socket is
    created at [wss://ocap.arcblock.io/api/<dataSource>/socket], with a
    string at that string, with a function at its value for the data
    source. *)
Theorem endpoints_follow_the_configuration c ds st query answer :
  let cfg := assign ds c in
  effects (fst (_doRequest cfg st query answer))
    = (effects st ++
       [AxiosPost (match u_httpBaseUrl c with
                   | Some base => base ++ "/" ++ ds
                   | None => "https://ocap.arcblock.io/api/" ++ ds
                   end) query])%list /\
  (channel_joined st = None ->
   exists rest,
     effects (fst (_ensureSubscriptionChannel cfg st))
     = (effects st ++
        SocketNew (sockets_created st)
          (match u_socketBaseUrl c with
           | Some (UrlString u) => u
           | Some (UrlFunction f) => f ds
           | None => "wss://ocap.arcblock.io/api/" ++ ds ++ "/socket"
           end) :: rest)%list).
Proof.
  cbv zeta. split.
  - rewrite doRequest_effects. cbn [assign httpBaseUrl dataSource].
    now destruct (u_httpBaseUrl c).
  - intros E. unfold _ensureSubscriptionChannel. rewrite E.
    cbn [fst log effects assign socketBaseUrl dataSource].
    eexists. f_equal. f_equal.
    destruct (u_socketBaseUrl c) as [[u|f]|]; reflexivity.
Qed.

Lemma endpoints_follow_the_configuration_witness :
  exists rest,
    effects (fst (_ensureSubscriptionChannel demo_config init_state))
    = SocketNew 0 "wss://ocap.arcblock.io/api/eth/socket" :: rest.
Proof.
  destruct (endpoints_follow_the_configuration demo_user_config "eth" init_state
              "{blocks}" (AxiosRejected (Error "offline"))) as [_ H].
  apply H. reflexivity.
Defined.
